(** * TalentScout hiring assistant: text utilities and conversation flow

    A shallow embedding of [utils.py] and [app.py].

    Python [str] values are modelled by [string]; a character [c : ascii]
    stands for the code point of the same number (U+0000 to U+00FF), and the
    character classes below are the ones Python uses on that range
    ([str.isspace], [str.isalpha], [str.isdigit], [str.lower], and the
    classes [\w] and [\d] of the [re] module on [str] patterns). *)

From Stdlib Require Import ZArith NArith List String Ascii Bool Lia SpecFloat.
Import ListNotations.
Local Open Scope string_scope.

(** ** Python string primitives *)

Module PyStr.

Definition code (c : ascii) : N := N_of_ascii c.

Definition between (lo hi : N) (c : ascii) : bool :=
  ((lo <=? code c) && (code c <=? hi))%N.

Definition is_code (n : N) (c : ascii) : bool := (code c =? n)%N.

(** [str.isspace] on one character; also the set removed by [str.strip()]
    and used as separators by [str.split()]. *)
Definition isspace (c : ascii) : bool :=
  between 9 13 c || between 28 32 c || is_code 133 c || is_code 160 c.

(** The regular-expression class [[a-zA-Z]]. *)
Definition is_ascii_letter (c : ascii) : bool :=
  between 65 90 c || between 97 122 c.

(** [str.isalpha] on one character. *)
Definition isalpha (c : ascii) : bool :=
  is_ascii_letter c || is_code 170 c || is_code 181 c || is_code 186 c
  || between 192 214 c || between 216 246 c || between 248 255 c.

(** The regular-expression class [\d]. *)
Definition isdecimal (c : ascii) : bool := between 48 57 c.

(** [str.isdigit] on one character (superscript digits included). *)
Definition isdigit (c : ascii) : bool :=
  isdecimal c || is_code 178 c || is_code 179 c || is_code 185 c.

(** The regular-expression class [\w]: alphanumerics and the underscore. *)
Definition isword (c : ascii) : bool :=
  isalpha c || isdecimal c || is_code 95 c
  || is_code 178 c || is_code 179 c || is_code 185 c || between 188 190 c.

Definition has_lower (c : ascii) : bool :=
  between 65 90 c || between 192 214 c || between 216 222 c.

Definition has_upper (c : ascii) : bool :=
  between 97 122 c || between 224 246 c || between 248 254 c.

Definition lower_char (c : ascii) : ascii :=
  if has_lower c then ascii_of_N (code c + 32) else c.

Definition upper_char (c : ascii) : ascii :=
  if has_upper c then ascii_of_N (code c - 32) else c.

Fixpoint smap (f : ascii -> ascii) (s : string) : string :=
  match s with
  | "" => ""
  | String c r => String (f c) (smap f r)
  end.

(** [s.lower()] *)
Definition lower (s : string) : string := smap lower_char s.

(** [s.capitalize()]: first character title-cased, the rest lower-cased.
    The result is [None] when it leaves the modelled range of code points
    (micro sign and y-diaeresis map to U+039C and U+0178). *)
Definition capitalize (s : string) : option string :=
  match s with
  | "" => Some ""
  | String c r =>
      if is_code 181 c || is_code 255 c then None
      else if is_code 223 c then Some ("Ss" ++ lower r)
      else Some (String (upper_char c) (lower r))
  end.

Definition is_empty (s : string) : bool :=
  match s with "" => true | _ => false end.

Fixpoint lstrip (s : string) : string :=
  match s with
  | "" => ""
  | String c r => if isspace c then lstrip r else s
  end.

Fixpoint rstrip (s : string) : string :=
  match s with
  | "" => ""
  | String c r =>
      let r' := rstrip r in
      if isspace c && is_empty r' then "" else String c r'
  end.

(** [s.strip()] *)
Definition strip (s : string) : string := rstrip (lstrip s).

Fixpoint sall (p : ascii -> bool) (s : string) : bool :=
  match s with
  | "" => true
  | String c r => p c && sall p r
  end.

Fixpoint sany (p : ascii -> bool) (s : string) : bool :=
  match s with
  | "" => false
  | String c r => p c || sany p r
  end.

Fixpoint sfilter (p : ascii -> bool) (s : string) : string :=
  match s with
  | "" => ""
  | String c r => if p c then String c (sfilter p r) else sfilter p r
  end.

(** [ch in s] for a one-character [ch] *)
Definition contains (ch : ascii) (s : string) : bool := sany (Ascii.eqb ch) s.

(** [s[:n]] *)
Fixpoint take (n : nat) (s : string) : string :=
  match n, s with
  | S k, String c r => String c (take k r)
  | _, _ => ""
  end.

(** [s[n:]] *)
Fixpoint drop (n : nat) (s : string) : string :=
  match n, s with
  | S k, String _ r => drop k r
  | _, _ => s
  end.

(** ["*" * n] *)
Fixpoint stars (n : nat) : string :=
  match n with
  | O => ""
  | S k => String "*" (stars k)
  end.

(** [s.split(sep)] for a one-character separator. *)
Fixpoint split_on (sep : ascii) (s : string) : list string :=
  match s with
  | "" => [""]
  | String c r =>
      if Ascii.eqb c sep then "" :: split_on sep r
      else match split_on sep r with
           | h :: t => String c h :: t
           | [] => [String c ""]
           end
  end.

(** [s.split(sep, 1)] when [sep] occurs in [s]: the text before the first
    occurrence and the text after it; [None] when [sep] does not occur. *)
Fixpoint split_once (sep : ascii) (s : string) : option (string * string) :=
  match s with
  | "" => None
  | String c r =>
      if Ascii.eqb c sep then Some ("", r)
      else match split_once sep r with
           | Some (u, d) => Some (String c u, d)
           | None => None
           end
  end.

(** [s.split()]: the maximal runs of non-space characters. *)
Fixpoint split_ws_aux (cur : option string) (s : string) : list string :=
  match s with
  | "" => match cur with Some w => [w] | None => [] end
  | String c r =>
      if isspace c then
        match cur with
        | Some w => w :: split_ws_aux None r
        | None => split_ws_aux None r
        end
      else
        match cur with
        | Some w => split_ws_aux (Some (w ++ String c "")) r
        | None => split_ws_aux (Some (String c "")) r
        end
  end.

Definition split_ws (s : string) : list string := split_ws_aux None s.

(** [s.find(ch)]: index of the first occurrence, [None] for -1. *)
Fixpoint find (ch : ascii) (s : string) : option nat :=
  match s with
  | "" => None
  | String c r =>
      if Ascii.eqb c ch then Some O
      else match find ch r with Some i => Some (S i) | None => None end
  end.

(** [s.rfind(ch)]: index of the last occurrence, [None] for -1. *)
Fixpoint rfind (ch : ascii) (s : string) : option nat :=
  match s with
  | "" => None
  | String c r =>
      match rfind ch r with
      | Some i => Some (S i)
      | None => if Ascii.eqb c ch then Some O else None
      end
  end.

(** [sep.join(l)] *)
Fixpoint join (sep : string) (l : list string) : string :=
  match l with
  | [] => ""
  | [x] => x
  | x :: r => x ++ sep ++ join sep r
  end.

(** Maximal runs of characters of one [\w]/[\W] class, left to right. *)
Fixpoint runs (s : string) : list (bool * string) :=
  match s with
  | "" => []
  | String c r =>
      match runs r with
      | (b, h) :: t =>
          if Bool.eqb b (isword c) then (b, String c h) :: t
          else (isword c, String c "") :: (b, h) :: t
      | [] => [(isword c, String c "")]
      end
  end.

(** [re.split(r"(\W+)", s)]: word pieces and the separators between them,
    with an empty piece before a leading and after a trailing separator. *)
Definition re_split_nonword (s : string) : list string :=
  match runs s with
  | [] => [""]
  | (b, h) :: t =>
      ((if b then [] else [""])
         ++ map snd ((b, h) :: t)
         ++ (if fst (last t (b, h)) then [] else [""]))%list
  end.

End PyStr.

(** ** [utils.py] *)

Module Utils.
Import PyStr.

Definition END_KEYWORDS : list string :=
  ["bye"; "exit"; "quit"; "stop"; "end"; "thank you"; "thanks"].

Definition mem (s : string) (l : list string) : bool :=
  existsb (String.eqb s) l.

Definition is_end_message (s : string) : bool :=
  let s := lower (strip s) in
  mem s END_KEYWORDS.

(** One piece of [anonymize]'s loop body. *)
Definition anonymize_part (p : string) : string :=
  match p with
  | String c r =>
      if sall isalpha p && (1 <? String.length p)%nat
      then String c (stars (String.length p - 1))
      else if sall isdecimal p && (3 <=? String.length p)%nat
      then stars (String.length p)
      else p
  | "" => p
  end.

Definition anonymize (value : string) : string :=
  if is_empty value then value
  else String.concat "" (map anonymize_part (re_split_nonword value)).

Definition mask_email (email : string) : string :=
  let email := strip email in
  match split_once "@" email with
  | None => anonymize email
  | Some (user, domain) =>
      match user with
      | "" => anonymize email
      | String c _ =>
          let masked_user :=
            String c (stars (Nat.max 1 (String.length user - 1))) in
          masked_user ++ "@" ++ domain
      end
  end.

Definition tech_list_from_input (s : string) : list string :=
  let items := map strip (split_on "," s) in
  let items :=
    filter (fun t => negb (is_empty t) && sany is_ascii_letter t) items in
  firstn 10 (map (take 50) items).

(** The assertion [\b] between two neighbouring positions: exactly one side
    is a [\w] character (the ends of the text count as non-word). *)
Definition word_side (o : option ascii) : bool :=
  match o with Some c => isword c | None => false end.

Definition boundary (prev next : option ascii) : bool :=
  xorb (word_side prev) (word_side next).

Definition head (s : string) : option ascii :=
  match s with String c _ => Some c | "" => None end.

Definition is_1_to_9 (c : ascii) : bool := between 49 57 c.

(** An attempt to match [\b([1-9]|10)\b] starting at the position whose
    preceding character is [prev] and whose remaining text is [s]; the
    result is the text of group 1.  The alternatives are tried in order. *)
Definition match_here (prev : option ascii) (s : string) : option string :=
  if boundary prev (head s) then
    match s with
    | String c r =>
        if is_1_to_9 c && boundary (Some c) (head r) then Some (String c "")
        else
          match r with
          | String c2 r2 =>
              if Ascii.eqb c "1" && Ascii.eqb c2 "0"
                 && boundary (Some c2) (head r2)
              then Some "10" else None
          | "" => None
          end
    | "" => None
    end
  else None.

(** [re.search]: the match at the leftmost position that has one. *)
Fixpoint search (prev : option ascii) (s : string) : option string :=
  match match_here prev s with
  | Some g => Some g
  | None =>
      match s with
      | String c r => search (Some c) r
      | "" => None
      end
  end.

(** [int(g)] for a text of decimal digits. *)
Definition int_of_digits (g : string) : Z :=
  fold_left (fun acc c => 10 * acc + (Z.of_N (code c) - 48))%Z
            (list_ascii_of_string g) 0%Z.

Definition parse_1_to_10 (s : string) : option Z :=
  match search None (strip s) with
  | None => None
  | Some g => Some (int_of_digits g)
  end.

End Utils.

(** ** Decoded JSON and the host functions the program calls *)

Module Py.
Import PyStr.

(** A value produced by [json.loads]; [JNull] is Python's [None]. *)
#[local] Unset Elimination Schemes.
Inductive json : Type :=
| JNull
| JBool (b : bool)
| JInt (n : Z)
| JFloat (f : spec_float)
| JStr (s : string)
| JList (l : list json)
| JDict (d : list (string * json)).
#[local] Set Elimination Schemes.

(** Python truth value of a decoded JSON value. *)
Definition truthy (v : json) : bool :=
  match v with
  | JNull => false
  | JBool b => b
  | JInt n => negb (n =? 0)%Z
  | JFloat (S754_zero _) => false
  | JFloat _ => true
  | JStr s => negb (is_empty s)
  | JList l => match l with [] => false | _ => true end
  | JDict d => match d with [] => false | _ => true end
  end.

(** [a or b] *)
Definition py_or (a b : json) : json := if truthy a then a else b.

(** A [dict] with string keys, in insertion order. *)
Definition dict (V : Type) : Type := list (string * V).

(** [d.get(k)] on a decoded JSON object: [None] when the key is missing. *)
Fixpoint dict_get (d : dict json) (k : string) : json :=
  match d with
  | [] => JNull
  | (k', v) :: r => if String.eqb k' k then v else dict_get r k
  end.

(** [d.get(k, default)] *)
Fixpoint get_default {V : Type} (d : dict V) (k : string) (default : V) : V :=
  match d with
  | [] => default
  | (k', v) :: r => if String.eqb k' k then v else get_default r k default
  end.

(** [d[k]] when [k in d]; [None] when the key is missing. *)
Fixpoint dict_find {V : Type} (d : dict V) (k : string) : option V :=
  match d with
  | [] => None
  | (k', v) :: r => if String.eqb k' k then Some v else dict_find r k
  end.

(** [d[k] = v]: an existing key keeps its place. *)
Fixpoint dict_set {V : Type} (d : dict V) (k : string) (v : V) : dict V :=
  match d with
  | [] => [(k, v)]
  | (k', v') :: r =>
      if String.eqb k' k then (k', v) :: r else (k', v') :: dict_set r k v
  end.

(** The text-generation request, by template and interpolated values (the
    fixed wording of the three templates is not reproduced). *)
(** One entry of [st.session_state.answers]. *)
Record answer : Type := mk_answer {
  a_tech : string;
  a_question : string;
  a_answer : string;
  a_score : option Z;
  a_feedback : json
}.

Inductive prompt : Type :=
| QuestionsPrompt (tech_list_str : string)
| ScorePrompt (question answer : string)
| SummaryPrompt (info : dict (option string))
                (ratings : dict Z)
                (answers : list answer).

(** What the program takes from outside its two files:
    - [json_loads]: [json.loads], [None] when it raises;
    - [py_str]: [str(q)] on a decoded JSON value;
    - [py_int]: [int(v)] on a decoded JSON value, [None] when it raises;
    - [backend]: the text of the reply to the n-th request sent to the
      generation service, [None] when that request raises. *)
Record host : Type := {
  json_loads : string -> option json;
  py_str : json -> string;
  py_int : json -> option Z;
  backend : nat -> prompt -> option string
}.

End Py.

(** ** [app.py]

    The session state of the UI framework is the record [session]; the
    script is a computation over a [world] that can return, raise or be
    stopped.  Rendering is represented by the history it is recorded in. *)

Module App.
Import PyStr Utils Py.

Definition FIELDS : list string :=
  ["Full Name"; "Email Address"; "Phone Number"; "Years of Experience";
   "Desired Position(s)"; "Current Location"; "Tech Stack"].

(** [st.session_state.step] *)
Inductive step_name : Type := Greet | Fields | Ratings | TechQ | Summary | Done.

(** The texts passed to [say], by the statement that builds them. *)
Inductive said : Type :=
| Greeting
| AskField (field : string)
| NeedFirstAndLastName
| InvalidEmail
| InvalidPhone
| NumbersOnly
| PositionTooShort
| InvalidLocation
| TechStackNotUnderstood
| RatingIntro
| AskFirstRating (tech : string)
| AskNextRating (tech : string)
| SkipToQuestions
| RatingInvalid
| Generating
| Question (tech : string) (number : nat) (q : string)
| CouldNotGenerate
| PreparingSummary
| SummaryText (final : string)
| Closing
| ThanksAgain
| SessionCompleted.

(** An entry of [st.session_state.history]: role and text. *)
Inductive turn : Type :=
| User (text : string)
| Assistant (m : said).

(** The record written by [save_simulated] (its time stamp is left out). *)
Record snapshot : Type := mk_snapshot {
  snap_info : dict (option string);
  snap_ratings : dict Z;
  snap_answers : list answer;
  snap_summary : option string
}.

(** [st.session_state] *)
Record session : Type := mk_session {
  history : list turn;
  step : step_name;
  field_index : nat;
  candidate : dict (option string);
  techs : list string;
  ratings : dict Z;
  qmap : dict (list string);
  flat_questions : list (string * string);
  q_ptr : nat;
  answers : list answer;
  consent : bool;
  rating_idx : option nat;
  final_summary : option string
}.

(** The session together with what lies outside it: the lines of
    [candidates.jsonl], the number of requests sent to the generation
    service so far, and the delays slept in [safe_generate]. *)
Record world : Type := mk_world {
  st : session;
  file : list snapshot;
  calls : nat;
  slept : list N
}.

Definition set_history v s := mk_session v (step s) (field_index s) (candidate s) (techs s) (ratings s) (qmap s) (flat_questions s) (q_ptr s) (answers s) (consent s) (rating_idx s) (final_summary s).
Definition set_step v s := mk_session (history s) v (field_index s) (candidate s) (techs s) (ratings s) (qmap s) (flat_questions s) (q_ptr s) (answers s) (consent s) (rating_idx s) (final_summary s).
Definition set_field_index v s := mk_session (history s) (step s) v (candidate s) (techs s) (ratings s) (qmap s) (flat_questions s) (q_ptr s) (answers s) (consent s) (rating_idx s) (final_summary s).
Definition set_candidate v s := mk_session (history s) (step s) (field_index s) v (techs s) (ratings s) (qmap s) (flat_questions s) (q_ptr s) (answers s) (consent s) (rating_idx s) (final_summary s).
Definition set_techs v s := mk_session (history s) (step s) (field_index s) (candidate s) v (ratings s) (qmap s) (flat_questions s) (q_ptr s) (answers s) (consent s) (rating_idx s) (final_summary s).
Definition set_ratings v s := mk_session (history s) (step s) (field_index s) (candidate s) (techs s) v (qmap s) (flat_questions s) (q_ptr s) (answers s) (consent s) (rating_idx s) (final_summary s).
Definition set_qmap v s := mk_session (history s) (step s) (field_index s) (candidate s) (techs s) (ratings s) v (flat_questions s) (q_ptr s) (answers s) (consent s) (rating_idx s) (final_summary s).
Definition set_flat_questions v s := mk_session (history s) (step s) (field_index s) (candidate s) (techs s) (ratings s) (qmap s) v (q_ptr s) (answers s) (consent s) (rating_idx s) (final_summary s).
Definition set_q_ptr v s := mk_session (history s) (step s) (field_index s) (candidate s) (techs s) (ratings s) (qmap s) (flat_questions s) v (answers s) (consent s) (rating_idx s) (final_summary s).
Definition set_answers v s := mk_session (history s) (step s) (field_index s) (candidate s) (techs s) (ratings s) (qmap s) (flat_questions s) (q_ptr s) v (consent s) (rating_idx s) (final_summary s).
Definition set_consent v s := mk_session (history s) (step s) (field_index s) (candidate s) (techs s) (ratings s) (qmap s) (flat_questions s) (q_ptr s) (answers s) v (rating_idx s) (final_summary s).
Definition set_rating_idx v s := mk_session (history s) (step s) (field_index s) (candidate s) (techs s) (ratings s) (qmap s) (flat_questions s) (q_ptr s) (answers s) (consent s) v (final_summary s).
Definition set_final_summary v s := mk_session (history s) (step s) (field_index s) (candidate s) (techs s) (ratings s) (qmap s) (flat_questions s) (q_ptr s) (answers s) (consent s) (rating_idx s) v.

Definition set_st v w := mk_world v (file w) (calls w) (slept w).
Definition set_file v w := mk_world (st w) v (calls w) (slept w).
Definition set_calls v w := mk_world (st w) (file w) v (slept w).
Definition set_slept v w := mk_world (st w) (file w) (calls w) v.

(** *** Control: results, exceptions and [st.stop()] *)

Inductive exn : Type := BackendError | RuntimeError | IndexError | ValueError.

(** How a piece of the script ends: normally, with an exception that is
    still propagating, or stopped by [st.stop()]. *)
Inductive res (A : Type) : Type :=
| Ret (a : A)
| Raise (e : exn)
| Halt.
Arguments Ret {A} a.
Arguments Raise {A} e.
Arguments Halt {A}.

Definition M (A : Type) : Type := world -> res A * world.

Definition ret {A : Type} (a : A) : M A := fun w => (Ret a, w).

Definition bind {A B : Type} (m : M A) (k : A -> M B) : M B :=
  fun w =>
    match m w with
    | (Ret a, w') => k a w'
    | (Raise e, w') => (Raise e, w')
    | (Halt, w') => (Halt, w')
    end.

Definition raise {A : Type} (e : exn) : M A := fun w => (Raise e, w).

Definition st_stop {A : Type} : M A := fun w => (Halt, w).

(** [try: m  except Exception: handler] *)
Definition try_except {A : Type} (m handler : M A) : M A :=
  fun w =>
    match m w with
    | (Raise _, w') => handler w'
    | r => r
    end.

Definition get_session : M session := fun w => (Ret (st w), w).

Definition update (f : session -> session) : M unit :=
  fun w => (Ret tt, set_st (f (st w)) w).

Declare Scope script_scope.
Delimit Scope script_scope with script.
Notation "x <- m ;; k" := (bind m (fun x => k))
  (at level 61, m at next level, right associativity) : script_scope.
Notation "m ;; k" := (bind m (fun _ => k))
  (at level 61, right associativity) : script_scope.
Local Open Scope script_scope.

Section Script.

Variable X : host.

(** *** The generation client *)

Definition generate_content (p : prompt) : M string :=
  fun w =>
    let w' := set_calls (S (calls w)) w in
    match backend X (calls w) p with
    | Some text => (Ret text, w')
    | None => (Raise BackendError, w')
    end.

Definition time_sleep (d : N) : M unit :=
  fun w => (Ret tt, set_slept (slept w ++ [d])%list w).

(** The loop of [safe_generate] from iteration [i], with [remaining]
    iterations to go; [backoff] is 1. *)
Fixpoint safe_generate_from (p : prompt) (i remaining : nat) : M string :=
  match remaining with
  | O => raise RuntimeError
  | S k =>
      try_except (generate_content p)
                 (time_sleep (2 ^ N.of_nat i);; safe_generate_from p (S i) k)
  end.

Definition safe_generate (p : prompt) (retries : nat) : M string :=
  safe_generate_from p 0 retries.

(** *** [safe_extract_json] (of [utils.py]; it calls [json.loads]) *)

Definition safe_extract_json (text : string) : option (dict json) :=
  if is_empty text then None
  else
    match json_loads X text with
    | Some (JDict d) => Some d
    | _ =>
        match find "{" text, rfind "}" text with
        | Some start, Some stop =>
            if (start <? stop)%nat then
              let snippet := take (stop + 1 - start) (drop start text) in
              match json_loads X snippet with
              | Some (JDict d) => Some d
              | _ => None
              end
            else None
        | _, _ => None
        end
    end.

(** [safe_extract_json(raw) or {}] *)
Definition extract_or_empty (raw : string) : dict json :=
  match safe_extract_json raw with
  | Some d => d
  | None => []
  end.

(** *** Questions, scores and the summary *)

Definition fallback_questions (t : string) : list string :=
  ["Briefly explain a key concept in " ++ t ++ ".";
   "How do you debug common issues in " ++ t ++ "?";
   "Describe a challenging " ++ t ++ " task you solved."].

(** [data.get(t) or data.get(t.capitalize()) or data.get(t.lower()) or []];
    a capitalized name outside the modelled code points is the key of no
    entry of [data]. *)
Definition lookup_questions (data : dict json) (t : string) : json :=
  py_or (py_or (py_or (dict_get data t)
                      (match capitalize t with
                       | Some k => dict_get data k
                       | None => JNull
                       end))
               (dict_get data (lower t)))
        (JList []).

(** The body of [if isinstance(qs, list):] up to the slice [qs[:5]]. *)
Definition sanitize_list (t : string) (qs : list json) : list string :=
  let qs :=
    filter (fun q => negb (is_empty q)) (map (fun q => strip (py_str X q)) qs) in
  let qs := if (List.length qs <? 3)%nat then (qs ++ fallback_questions t)%list else qs in
  firstn 5 qs.

(** The loop [for t in techs:] of [llm_generate_questions]. *)
Definition sanitize (data : dict json) (techs : list string)
  : dict (list string) :=
  fold_left
    (fun cleaned t =>
       match lookup_questions data t with
       | JList qs => dict_set cleaned t (sanitize_list t qs)
       | _ => cleaned
       end)
    techs [].

(** What the loop of [llm_generate_questions] stores for [t]. *)
Definition stored_for (data : dict json) (t : string) : option (list string) :=
  match lookup_questions data t with
  | JList qs => Some (sanitize_list t qs)
  | _ => None
  end.

Definition llm_generate_questions (techs : list string)
  : M (dict (list string)) :=
  let tech_list_str := join ", " techs in
  raw <- safe_generate (QuestionsPrompt tech_list_str) 3;;
  let data := extract_or_empty raw in
  ret (sanitize data techs).

(** The returned pair is the dict [{"score": ..., "feedback": ...}]. *)
Definition llm_score_answer (question answer : string) : M (option Z * json) :=
  raw <- safe_generate (ScorePrompt question answer) 2;;
  let data := extract_or_empty raw in
  let score := dict_get data "score" in
  let feedback := dict_get data "feedback" in
  let score :=
    match score with
    | JNull => None
    | v => py_int X v
    end in
  ret (score, feedback).

Definition llm_final_summary (info : dict (option string)) (ratings : dict Z)
           (answers : list answer) : M string :=
  raw <- safe_generate (SummaryPrompt info ratings answers) 2;;
  ret (strip raw).

(** *** Conversation flow *)

Definition say (text : said) : M unit :=
  update (fun s => set_history (history s ++ [Assistant text])%list s).

Definition save_simulated (snap : snapshot) : M unit :=
  fun w => (Ret tt, set_file (file w ++ [snap])%list w).

Definition ask_next_field : M unit :=
  s <- get_session;;
  match nth_error FIELDS (field_index s) with
  | None => ret tt
  | Some field => say (AskField field)
  end.

Definition store (field value : string) : M unit :=
  update (fun s => set_candidate (dict_set (candidate s) field (Some value)) s).

(** [u.isdigit()] *)
Definition str_isdigit (u : string) : bool := negb (is_empty u) && sall isdigit u.

Definition validate_and_store (field user_text : string) : M (option said) :=
  let u := strip user_text in
  if (field =? "Full Name")%string then
    if (List.length (split_ws u) <? 2)%nat then ret (Some NeedFirstAndLastName)
    else store field (anonymize u);; ret None
  else if (field =? "Email Address")%string then
    if negb (contains "@" u) || negb (contains "." u) then ret (Some InvalidEmail)
    else store field (mask_email u);; ret None
  else if (field =? "Phone Number")%string then
    let digits := sfilter isdigit u in
    if negb ((7 <=? String.length digits)%nat && (String.length digits <=? 15)%nat)
    then ret (Some InvalidPhone)
    else store field (anonymize u);; ret None
  else if (field =? "Years of Experience")%string then
    if negb (str_isdigit u) then ret (Some NumbersOnly)
    else store field u;; ret None
  else if (field =? "Desired Position(s)")%string then
    if (String.length u <? 2)%nat then ret (Some PositionTooShort)
    else store field u;; ret None
  else if (field =? "Current Location")%string then
    if (String.length u <? 2)%nat then ret (Some InvalidLocation)
    else store field u;; ret None
  else if (field =? "Tech Stack")%string then
    let techs := tech_list_from_input u in
    match techs with
    | [] => ret (Some TechStackNotUnderstood)
    | _ :: _ =>
        store field (join ", " techs);;
        update (set_techs techs);;
        ret None
    end
  else ret None.

Definition ensure_greeting_once : M unit :=
  s <- get_session;;
  match history s with
  | [] => say Greeting
  | _ :: _ => ret tt
  end.

(** [l.index(x)] *)
Fixpoint list_index (l : list string) (x : string) : option nat :=
  match l with
  | [] => None
  | y :: r =>
      if (y =? x)%string then Some O
      else match list_index r x with Some i => Some (S i) | None => None end
  end.

(** The two nested loops that build [flat]. *)
Definition flatten (techs : list string) (qmap : dict (list string))
  : list (string * string) :=
  flat_map (fun t => map (fun q => (t, q)) (get_default qmap t [])) techs.

(** [if st.session_state.step == "fields":] *)
Definition handle_fields (user_input : string) : M unit :=
  s <- get_session;;
  match nth_error FIELDS (field_index s) with
  | None => raise IndexError
  | Some current_field =>
      err <- validate_and_store current_field user_input;;
      match err with
      | Some e => say e
      | None =>
          update (fun s => set_field_index (S (field_index s)) s);;
          s <- get_session;;
          if (field_index s <? List.length FIELDS)%nat then ask_next_field
          else
            update (set_step Ratings);;
            update (set_rating_idx (Some O));;
            match techs s with
            | t0 :: _ => say RatingIntro;; say (AskFirstRating t0)
            | [] =>
                say SkipToQuestions;;
                update (set_step TechQ);;
                update (set_q_ptr O)
            end
      end
  end.

(** [elif st.session_state.step == "ratings":]  The guard
    [0 <= idx < len(techs)] and the access [techs[idx]] are one
    [nth_error]. *)
Definition handle_ratings (user_input : string) : M unit :=
  s <- get_session;;
  let techs := techs s in
  let idx := match rating_idx s with Some i => i | None => O end in
  match nth_error techs idx with
  | None => ret tt
  | Some t =>
      match parse_1_to_10 user_input with
      | None => say RatingInvalid
      | Some val =>
          update (fun s => set_ratings (dict_set (ratings s) t val) s);;
          let idx := S idx in
          update (set_rating_idx (Some idx));;
          match nth_error techs idx with
          | Some t' => say (AskNextRating t')
          | None =>
              say Generating;;
              qmap <- llm_generate_questions techs;;
              update (set_qmap qmap);;
              let flat := flatten techs qmap in
              update (set_flat_questions flat);;
              update (set_q_ptr O);;
              update (set_step TechQ);;
              match flat with
              | first :: _ => say (Question (fst first) 1 (snd first))
              | [] =>
                  say CouldNotGenerate;;
                  update (set_step Fields);;
                  match list_index FIELDS "Tech Stack" with
                  | Some i => update (set_field_index i)
                  | None => raise ValueError
                  end
              end
          end
      end
  end.

Definition count_for_tech (flat : list (string * string)) (ptr : nat)
           (tech : string) : nat :=
  1 + List.length (filter (fun x => (fst x =? tech)%string) (firstn ptr flat)).

Definition summary_unavailable : string :=
  "Summary unavailable due to a temporary issue.".

(** [elif st.session_state.step == "tech_q":] *)
Definition handle_tech_q (user_input : string) : M unit :=
  s <- get_session;;
  let ptr := q_ptr s in
  let flat := flat_questions s in
  match nth_error flat ptr with
  | None => ret tt
  | Some current =>
      let qtext := snd current in
      let tech := fst current in
      let ans := strip user_input in
      score_pack <- try_except (llm_score_answer qtext ans) (ret (None, JNull));;
      update (fun s =>
                set_answers
                  (answers s ++ [mk_answer tech qtext ans (fst score_pack)
                                           (snd score_pack)])%list s);;
      let ptr := S ptr in
      update (set_q_ptr ptr);;
      match nth_error flat ptr with
      | Some next_q =>
          say (Question (fst next_q) (count_for_tech flat ptr (fst next_q))
                        (snd next_q))
      | None =>
          update (set_step Summary);;
          say PreparingSummary;;
          s <- get_session;;
          final <- try_except
                     (llm_final_summary (candidate s) (ratings s) (answers s))
                     (ret summary_unavailable);;
          update (set_final_summary (Some final));;
          say (SummaryText final);;
          say Closing;;
          s <- get_session;;
          (if consent s
           then save_simulated
                  (mk_snapshot (candidate s) (ratings s) (answers s) (Some final))
           else ret tt);;
          update (set_step Done)
      end
  end.

(** The chain of [if]/[elif] on [st.session_state.step]. *)
Definition dispatch (user_input : string) : M unit :=
  s <- get_session;;
  match step s with
  | Fields => handle_fields user_input
  | Ratings => handle_ratings user_input
  | TechQ => handle_tech_q user_input
  | Summary => say ThanksAgain
  | Done => say SessionCompleted
  | Greet => ret tt
  end.

(** [if user_input:] and its body. *)
Definition handle_user_input (user_input : string) : M unit :=
  if is_empty user_input then ret tt
  else
    (if is_end_message user_input then
       say Closing;;
       s <- get_session;;
       (if consent s
        then save_simulated
               (mk_snapshot (candidate s) (ratings s) (answers s) None)
        else ret tt);;
       st_stop
     else ret tt);;
    update (fun s => set_history (history s ++ [User user_input])%list s);;
    dispatch user_input.

(** [if st.session_state.step == "greet":] *)
Definition greet_block : M unit :=
  s <- get_session;;
  match step s with
  | Greet =>
      ensure_greeting_once;;
      update (set_step Fields);;
      update (set_field_index O);;
      ask_next_field
  | _ => ret tt
  end.

(** One run of the script: the consent checkbox is read into the session,
    the greeting block runs, then the chat input, if any, is handled. *)
Definition script_run (consent_box : bool) (user_input : option string)
  : M unit :=
  update (set_consent consent_box);;
  greet_block;;
  match user_input with
  | Some u => handle_user_input u
  | None => ret tt
  end.

End Script.

(** A computation that neither reads nor writes the session. *)
Definition session_blind {A : Type} (m : M A) : Prop :=
  forall w s, m (set_st s w) = (fst (m w), set_st s (snd (m w))).

(** The session state set up at the top of the script. *)
Definition initial_session : session :=
  mk_session [] Greet O
             (map (fun f => (f, None)) FIELDS)
             [] [] [] [] O [] false None None.

Definition initial_world : world := mk_world initial_session [] O [].

(** The button "Erase session data": every key of the session state is
    deleted, the script is run again, without chat input, and sets the
    session up anew; the saved file is not altered. *)
Definition erase_session_data (X : host) (consent_box : bool) (w : world)
  : world :=
  snd (script_run X consent_box None (set_st initial_session w)).

(** The worlds in which the script can receive a chat message: the one left
    by the first run, which has no chat input yet, and those left by later
    runs, whatever the run's outcome, and by the erase button. *)
Inductive reachable (X : host) : world -> Prop :=
| reach_first : forall consent_box,
    reachable X (snd (script_run X consent_box None initial_world))
| reach_run : forall w consent_box user_input,
    reachable X w ->
    reachable X (snd (script_run X consent_box user_input w))
| reach_erase : forall w consent_box,
    reachable X w ->
    reachable X (erase_session_data X consent_box w).

(** Where the field cursor stands in each phase once the greeting is done:
    on a field while fields are collected, past the last field after. *)
Definition index_in_phase (s : session) : Prop :=
  match step s with
  | Greet => False
  | Fields => field_index s < List.length FIELDS
  | _ => field_index s = List.length FIELDS
  end.

(** Whether [validate_and_store] accepts [user_text] for [field] (its
    result does not depend on the session it runs in). *)
Definition passes_validation (field user_text : string) : bool :=
  match fst (validate_and_store field user_text initial_world) with
  | Ret None => true
  | _ => false
  end.

(** How one handled message moves the field cursor, by the phase it
    arrives in. *)
Definition cursor_move (msg : string) (s s' : session) : Prop :=
  match step s with
  | Fields =>
      exists f,
        nth_error FIELDS (field_index s) = Some f
        /\ field_index s'
           = if negb (is_empty msg) && negb (is_end_message msg)
                && passes_validation f msg
             then S (field_index s) else field_index s
  | Ratings =>
      field_index s' = field_index s
      \/ (field_index s = 7 /\ field_index s' = 6
          /\ step s' = Fields /\ flat_questions s' = [])
  | _ => field_index s' = field_index s
  end.

(** Successive runs of the script, one per chat message, with the consent
    box in the given position. *)
Fixpoint run_all (X : host) (consent_box : bool) (inputs : list string)
         (w : world) : world :=
  match inputs with
  | [] => w
  | u :: r => run_all X consent_box r (snd (script_run X consent_box (Some u) w))
  end.

End App.

(** ** The rating token, in the words of the specification *)

Module RatingSpec.
Import PyStr Utils.

(** The tokens "1" to "9" and "10", with the integers they denote. *)
Definition rating_tokens : list (string * Z) :=
  [("1", 1); ("2", 2); ("3", 3); ("4", 4); ("5", 5);
   ("6", 6); ("7", 7); ("8", 8); ("9", 9); ("10", 10)]%Z.

Fixpoint last_char (s : string) : option ascii :=
  match s with
  | "" => None
  | String c "" => Some c
  | String _ r => last_char r
  end.

(** [s] contains the token of [n] as a whole word: the characters next to
    it, if any, are not word characters. *)
Definition standalone_rating (s : string) (n : Z) : Prop :=
  exists pre tok post,
    s = pre ++ tok ++ post
    /\ In (tok, n) rating_tokens
    /\ word_side (last_char pre) = false
    /\ word_side (head post) = false.

(** The character before the position reached after [pre], when the
    character before [pre] is [prev]. *)
Definition last_or (prev : option ascii) (pre : string) : option ascii :=
  match last_char pre with
  | Some c => Some c
  | None => prev
  end.

End RatingSpec.

(** ** The tech list, in the words of the specification *)

Module TechListSpec.
Import PyStr.

(** [tokens] are the comma-separated tokens of [text]: joined with commas
    they give [text] back, and none of them contains a comma. *)
Definition comma_tokens (text : string) (tokens : list string) : Prop :=
  join "," tokens = text
  /\ Forall (fun t => contains "," t = false) tokens.

(** A trimmed token is kept when it is not empty and has a letter of
    [a-zA-Z]. *)
Definition kept (t : string) : bool :=
  negb (is_empty t) && sany is_ascii_letter t.

(** The trimmed tokens that are kept, in the order of the input. *)
Definition kept_tokens (tokens : list string) : list string :=
  filter kept (map strip tokens).

End TechListSpec.

(** ** Concrete hosts and sessions used as examples *)

Module Scenario.
Import PyStr Utils Py App.

(** A [json.loads] known only on the listed texts. *)
Definition table_loads (tbl : list (string * json)) (text : string)
  : option json :=
  match filter (fun kv => String.eqb (fst kv) text) tbl with
  | (_, v) :: _ => Some v
  | [] => None
  end.

(** [str] on the values the examples use: strings, [None], booleans. *)
Definition str_of (v : json) : string :=
  match v with
  | JStr s => s
  | JNull => "None"
  | JBool true => "True"
  | JBool false => "False"
  | _ => "?"
  end.

(** [int] on the values the examples use. *)
Definition int_of (v : json) : option Z :=
  match v with
  | JInt n => Some n
  | JBool b => Some (if b then 1 else 0)%Z
  | _ => None
  end.

Definition dq : string := String (ascii_of_nat 34) "".

(** The reply [{"Python": "What is a list?"}]: the value under the tech's
    key is a string, not a list. *)
Definition reply_string : string :=
  "{" ++ dq ++ "Python" ++ dq ++ ": " ++ dq ++ "What is a list?" ++ dq ++ "}".

(** The reply [{"Python": ["What is a list?", " "]}]. *)
Definition reply_list : string :=
  "{" ++ dq ++ "Python" ++ dq ++ ": [" ++ dq ++ "What is a list?" ++ dq
      ++ ", " ++ dq ++ " " ++ dq ++ "]}".

Definition loads : string -> option json :=
  table_loads
    [(reply_string, JDict [("Python", JStr "What is a list?")]);
     (reply_list, JDict [("Python", JList [JStr "What is a list?"; JStr " "])])].

(** The generation service fails on every request. *)
Definition failing : host :=
  Build_host loads str_of int_of (fun _ _ => None).

(** The service answers every request with [reply_string]. *)
Definition string_valued : host :=
  Build_host loads str_of int_of (fun _ _ => Some reply_string).

(** The service answers question requests with [reply_list] and fails on
    every other request. *)
Definition scoring_down : host :=
  Build_host loads str_of int_of
             (fun _ p => match p with
                         | QuestionsPrompt _ => Some reply_list
                         | _ => None
                         end).

(** The world after the first run of the script. *)
Definition opened (X : host) : world :=
  snd (script_run X true None initial_world).

Definition seven_fields : list string :=
  ["John Smith"; "jdoe@example.com"; "+1 555 123 4567"; "5"; "Engineer";
   "Paris"; "Python"].

(** All seven fields answered; the rating of the only tech is awaited. *)
Definition rating_awaited (X : host) : world :=
  run_all X true seven_fields (opened X).

(** The rating given as well; with [scoring_down] the first question is
    awaiting its answer. *)
Definition question_awaited (X : host) : world :=
  run_all X true ["7"] (rating_awaited X).

(** The service fails on its first two requests and answers "ok" from the
    third on. *)
Definition flaky : host :=
  Build_host Scenario.loads Scenario.str_of Scenario.int_of
             (fun n _ => if (n <? 2)%nat then None else Some "ok").

End Scenario.

(** ** What masking, retrying and running the script keep *)

Module Keeps.
Import PyStr Utils Py App.

(** [out] is [s] with some letters and decimal digits replaced by an
    asterisk, every other character in place. *)
Fixpoint masked_from (s out : string) : bool :=
  match s, out with
  | "", "" => true
  | String c r, String c' r' =>
      (Ascii.eqb c' c || (Ascii.eqb c' "*" && (isalpha c || isdecimal c)))
      && masked_from r r'
  | _, _ => false
  end.

(** The delays slept by [safe_generate] in [k] failed attempts from
    attempt [i] on: 2^i, 2^(i+1), ... *)
Definition backoff_delays (i k : nat) : list N :=
  map (fun e => 2 ^ N.of_nat e)%N (seq i k).

(** The tech and question text of the answers recorded so far. *)
Definition answered_questions (s : session) : list (string * string) :=
  map (fun a => (a_tech a, a_question a)) (answers s).

(** The techs rated so far have an entry in [ratings]: those before the
    rating cursor while ratings are collected, all of them once questions
    are asked. *)
Definition ratings_cover (s : session) : Prop :=
  match step s with
  | Ratings =>
      forall j t,
        j < match rating_idx s with Some i => i | None => 0 end ->
        nth_error (techs s) j = Some t ->
        dict_find (ratings s) t <> None
  | TechQ | Done =>
      forall t, In t (techs s) -> dict_find (ratings s) t <> None
  | _ => True
  end.

(** The state of a session between two runs: the candidate record has the
    seven fields, the caps and ranges hold, the answers follow the
    questions, and the cursors fit the phase. *)
Definition session_ok (s : session) : Prop :=
  map fst (candidate s) = FIELDS
  /\ List.length (techs s) <= 10
  /\ Forall (fun kv => (1 <= snd kv <= 10)%Z) (ratings s)
  /\ answered_questions s = firstn (q_ptr s) (flat_questions s)
  /\ match step s with
     | Greet | Summary => False
     | Fields => q_ptr s = 0
     | Ratings => q_ptr s = 0 /\ techs s <> []
     | TechQ => q_ptr s < List.length (flat_questions s)
     | Done => q_ptr s = List.length (flat_questions s)
               /\ final_summary s <> None
     end
  /\ ratings_cover s.

(** What a run must keep: the health of the session, the consent flag, and,
    without consent, the saved file. *)
Definition keeps_ok (w w' : world) : Prop :=
  session_ok (st w')
  /\ consent (st w') = consent (st w)
  /\ (consent (st w) = false -> file w' = file w).

(** A piece of the script that only appends to the history. *)
Definition grows {A : Type} (m : M A) : Prop :=
  forall w, exists l, history (st (snd (m w))) = (history (st w) ++ l)%list.

End Keeps.

(** * Properties *)

Import PyStr Utils Py App RatingSpec TechListSpec Keeps.
Local Open Scope script_scope.

(** ** Worked examples *)

Example anonymize_examples :
  anonymize "John Smith" = "J*** S****"
  /\ anonymize "12345" = "*****"
  /\ anonymize "ab" = "a*"
  /\ anonymize "+1 555 123 4567" = "+1 *** *** ****".
Proof. repeat split. Qed.

Example tech_list_from_input_example :
  tech_list_from_input "Python, , React , Node.js"
  = ["Python"; "React"; "Node.js"].
Proof. reflexivity. Qed.

Example parse_1_to_10_examples :
  map parse_1_to_10 ["I'd say 8"; "10"; " 10."; "a1"; "1.5"; "x 3 7"; "1_0"]
  = [Some 8; Some 10; Some 10; None; Some 1; Some 3; None]%Z.
Proof. reflexivity. Qed.

Example re_split_nonword_example :
  re_split_nonword " a, b " = [""; " "; "a"; ", "; "b"; " "; ""].
Proof. reflexivity. Qed.

(** A full interview with one tech, one question list from the service and
    a scorer that is down: seven fields, the rating, and an answer to the
    one question kept from the reply and to each of the three fallbacks. *)
Example interview_reaches_done :
  let w := run_all Scenario.scoring_down true
                   ["It is a sequence."; "Scope."; "With pdb."; "A parser."]
                   (Scenario.question_awaited Scenario.scoring_down) in
  step (st w) = Done
  /\ List.length (answers (st w)) = List.length (flat_questions (st w))
  /\ final_summary (st w) = Some summary_unavailable
  /\ List.length (file w) = 1.
Proof. vm_compute. repeat split. Qed.

(** ** Strings *)

Ltac each_char c := destruct c as [[] [] [] [] [] [] [] []].

Lemma isspace_lower_char (c : ascii) : isspace (lower_char c) = isspace c.
Proof. each_char c; reflexivity. Qed.

Lemma isspace_not_word (c : ascii) : isspace c = true -> isword c = false.
Proof. each_char c; simpl; intro H; try reflexivity; discriminate H. Qed.

Lemma lower_app (a b : string) : lower (a ++ b) = lower a ++ lower b.
Proof.
  induction a as [|c a IH]; simpl; [reflexivity|].
  unfold lower in *; simpl; now rewrite IH.
Qed.

Lemma sall_isspace_lower (s : string) :
  sall isspace (lower s) = sall isspace s.
Proof.
  induction s as [|c s IH]; simpl; [reflexivity|].
  unfold lower in *; simpl. now rewrite isspace_lower_char, IH.
Qed.

Lemma is_empty_lower (s : string) : is_empty (lower s) = is_empty s.
Proof. destruct s; reflexivity. Qed.

Lemma lower_lstrip (s : string) : lower (lstrip s) = lstrip (lower s).
Proof.
  induction s as [|c s IH]; [reflexivity|].
  change (lower (String c s)) with (String (lower_char c) (lower s)).
  simpl. rewrite isspace_lower_char.
  destruct (isspace c); [exact IH | reflexivity].
Qed.

Lemma lower_rstrip (s : string) : lower (rstrip s) = rstrip (lower s).
Proof.
  induction s as [|c s IH]; [reflexivity|].
  change (lower (String c s)) with (String (lower_char c) (lower s)).
  simpl. rewrite isspace_lower_char, <- IH, is_empty_lower.
  destruct (isspace c && is_empty (rstrip s)); reflexivity.
Qed.

Lemma lower_strip (s : string) : lower (strip s) = strip (lower s).
Proof. unfold strip. now rewrite lower_rstrip, lower_lstrip. Qed.

Lemma lstrip_spaces_app (pre s : string) :
  sall isspace pre = true -> lstrip (pre ++ s) = lstrip s.
Proof.
  induction pre as [|c pre IH]; simpl; [reflexivity|].
  intro H. apply andb_true_iff in H as [Hc Hp]. rewrite Hc. auto.
Qed.

Lemma rstrip_spaces (post : string) :
  sall isspace post = true -> rstrip post = "".
Proof.
  induction post as [|c post IH]; simpl; [reflexivity|].
  intro H. apply andb_true_iff in H as [Hc Hp]. now rewrite Hc, IH.
Qed.

Lemma rstrip_app_spaces (s post : string) :
  sall isspace post = true -> rstrip (s ++ post) = rstrip s.
Proof.
  intro H. induction s as [|c s IH]; simpl.
  - now apply rstrip_spaces.
  - now rewrite IH.
Qed.

Lemma mem_In (s : string) (l : list string) : mem s l = true <-> In s l.
Proof.
  unfold mem. rewrite existsb_exists. split.
  - intros [x [Hin Heq]]. apply String.eqb_eq in Heq. now subst.
  - intro H. exists s. split; [assumption | apply String.eqb_refl].
Qed.

Lemma strip_keyword_padded (k pre post : string) :
  In k END_KEYWORDS ->
  sall isspace pre = true -> sall isspace post = true ->
  strip (pre ++ k ++ post) = k.
Proof.
  intros Hk Hpre Hpost. unfold strip.
  rewrite lstrip_spaces_app by assumption.
  simpl in Hk.
  repeat (destruct Hk as [<- | Hk];
          [simpl; now rewrite (rstrip_spaces post Hpost)|]).
  contradiction.
Qed.

(** C8.  [is_end_message s] holds exactly when the trimmed, lower-cased
    form of [s] is one of the seven end keywords; it holds for every keyword
    written in any letter case and surrounded by white space; it does not
    hold for "goodbye". *)
Theorem is_end_message_exact_keyword :
  (forall s, is_end_message s = true <-> In (lower (strip s)) END_KEYWORDS)
  /\ (forall k s pre post,
         In k END_KEYWORDS -> lower s = k ->
         sall isspace pre = true -> sall isspace post = true ->
         is_end_message (pre ++ s ++ post) = true)
  /\ is_end_message "goodbye" = false.
Proof.
  split; [|split].
  - intro s. unfold is_end_message. apply mem_In.
  - intros k s pre post Hk Hs Hpre Hpost.
    unfold is_end_message. apply mem_In.
    rewrite lower_strip, !lower_app, Hs.
    rewrite strip_keyword_padded; try assumption.
    + now rewrite sall_isspace_lower.
    + now rewrite sall_isspace_lower.
  - reflexivity.
Qed.

Lemma is_end_message_exact_keyword_witness :
  is_end_message ("  " ++ "Thank YOU" ++ " ") = true.
Proof.
  apply (proj1 (proj2 is_end_message_exact_keyword) "thank you");
    [simpl; tauto | reflexivity | reflexivity | reflexivity].
Defined.

(** ** [mask_email] *)

Lemma split_once_app (sep : ascii) (user domain : string) :
  contains sep user = false ->
  split_once sep (user ++ String sep domain) = Some (user, domain).
Proof.
  induction user as [|c user IH]; simpl.
  - now rewrite Ascii.eqb_refl.
  - intro H. apply orb_false_iff in H as [Hc Hu].
    rewrite Ascii.eqb_sym, Hc. now rewrite (IH Hu).
Qed.

Lemma split_once_none (sep : ascii) (s : string) :
  contains sep s = false -> split_once sep s = None.
Proof.
  induction s as [|c s IH]; simpl; [reflexivity|].
  intro H. apply orb_false_iff in H as [Hc Hs].
  rewrite Ascii.eqb_sym, Hc. now rewrite (IH Hs).
Qed.

Lemma contains_stars (n : nat) : contains "*" (stars (S n)) = true.
Proof. reflexivity. Qed.

Lemma length_stars (n : nat) : String.length (stars n) = n.
Proof. induction n; simpl; congruence. Qed.

(** C5, as amended.  [mask_email "jdoe@example.com"] is
    ["j***@example.com"]: the first character of the local part is kept and
    each of its three other characters is replaced by one asterisk.  In
    general, when the trimmed email has a non-empty local part before its
    first "@", the first character is kept, the remainder is replaced by as
    many asterisks as it has characters (by one asterisk when it is empty),
    and the domain is left unchanged; when "@" is absent or the local part
    is empty, the result is [anonymize] of the trimmed email. *)
Theorem mask_email_keeps_first_and_domain :
  mask_email "jdoe@example.com" = "j***@example.com"
  /\ (forall email c rest domain,
         strip email = String c rest ++ "@" ++ domain ->
         contains "@" (String c rest) = false ->
         mask_email email
         = String c (stars (Nat.max 1 (String.length rest))) ++ "@" ++ domain)
  /\ (forall email,
         contains "@" (strip email) = false
         \/ head (strip email) = Some "@"%char ->
         mask_email email = anonymize (strip email)).
Proof.
  split; [reflexivity | split].
  - intros email c rest domain Hs Hc. unfold mask_email. rewrite Hs.
    change ("@" ++ domain) with (String "@" domain).
    rewrite (split_once_app "@" (String c rest) domain Hc).
    cbn [String.length Nat.sub]. now rewrite Nat.sub_0_r.
  - intros email [H | H]; unfold mask_email.
    + now rewrite (split_once_none _ _ H).
    + destruct (strip email) as [|c r]; [discriminate H|].
      simpl in H. injection H as ->. reflexivity.
Qed.

Lemma mask_email_keeps_first_and_domain_witness :
  mask_email " jdoe@example.com" = "j***@example.com"
  /\ mask_email "@example.com" = "@e******.c**".
Proof.
  split.
  - apply (proj1 (proj2 mask_email_keeps_first_and_domain)
                 " jdoe@example.com" "j"%char "doe" "example.com");
      reflexivity.
  - rewrite (proj2 (proj2 mask_email_keeps_first_and_domain) "@example.com");
      [reflexivity | right; reflexivity].
Defined.

(** C5, as stated, fails: the result has three asterisks, not four. *)
Lemma mask_email_jdoe_not_four_stars :
  mask_email "jdoe@example.com" <> "j****@example.com".
Proof. vm_compute. discriminate. Qed.

(** C10.  When the local part before the first "@" is a single character,
    [mask_email] appends one asterisk after it, so the masked local part is
    one character longer than the original; and whenever the local part is
    non-empty the masked local part contains an asterisk. *)
Theorem mask_email_single_char_local :
  (forall email c domain,
      strip email = String c ("@" ++ domain) -> c <> "@"%char ->
      mask_email email = String c "*" ++ "@" ++ domain
      /\ String.length (String c "*") = S (String.length (String c "")))
  /\ (forall email user domain,
         split_once "@" (strip email) = Some (user, domain) -> user <> "" ->
         exists masked,
           mask_email email = masked ++ "@" ++ domain
           /\ contains "*" masked = true
           /\ String.length masked = Nat.max 2 (String.length user)).
Proof.
  split.
  - intros email c domain Hs Hc. split; [|reflexivity].
    unfold mask_email. rewrite Hs.
    change (String c ("@" ++ domain)) with (String c "" ++ String "@" domain).
    rewrite split_once_app; [reflexivity|].
    unfold contains. cbn [sany].
    destruct (Ascii.eqb_spec "@" c) as [E|_]; [now subst | reflexivity].
  - intros email user domain Hs Hu. unfold mask_email. rewrite Hs.
    destruct user as [|c rest]; [contradiction|].
    exists (String c (stars (Nat.max 1 (String.length (String c rest) - 1)))).
    split; [reflexivity | split].
    + cbn [String.length Nat.sub]. rewrite Nat.sub_0_r.
      destruct (Nat.max 1 (String.length rest)) eqn:E; [lia|].
      unfold contains. cbn [sany stars]. rewrite (Ascii.eqb_refl "*").
      now rewrite orb_true_r.
    + simpl. rewrite Nat.sub_0_r, length_stars.
      destruct (String.length rest); reflexivity.
Qed.

Lemma mask_email_single_char_local_witness :
  mask_email "a@x.com" = "a*@x.com".
Proof.
  apply (proj1 mask_email_single_char_local "a@x.com" "a"%char "x.com");
    [reflexivity | discriminate].
Defined.

(** ** [parse_1_to_10] *)


Lemma is_1_to_9_token (c : ascii) :
  is_1_to_9 c = true ->
  In (String c "", int_of_digits (String c "")) rating_tokens
  /\ isword c = true.
Proof.
  each_char c; intro H; try discriminate H;
    (split; [simpl; tauto | reflexivity]).
Qed.

Lemma token_shape (tok : string) (n : Z) :
  In (tok, n) rating_tokens ->
  (exists c, tok = String c "" /\ is_1_to_9 c = true) \/ tok = "10".
Proof.
  simpl. intro H.
  repeat (destruct H as [H | H];
          [injection H as <- <-;
           first [ now right | left; eexists; split; reflexivity ] |]).
  contradiction.
Qed.

Lemma token_value (tok : string) (n : Z) :
  In (tok, n) rating_tokens -> int_of_digits tok = n /\ (1 <= n <= 10)%Z.
Proof.
  simpl. intro H.
  repeat (destruct H as [H | H];
          [injection H as <- <-; split; [reflexivity | lia] |]).
  contradiction.
Qed.

Lemma last_char_cons (pre : string) :
  forall c, exists x, last_char (String c pre) = Some x.
Proof.
  induction pre as [|a pre IH]; intro c; [now exists c|].
  destruct (IH a) as [x Hx]. exists x. exact Hx.
Qed.

Lemma last_or_cons (prev : option ascii) (c : ascii) (pre : string) :
  last_or prev (String c pre) = last_or (Some c) pre.
Proof.
  unfold last_or. destruct pre as [|a pre]; [reflexivity|].
  destruct (last_char_cons pre a) as [x Hx].
  change (last_char (String c (String a pre))) with (last_char (String a pre)).
  now rewrite Hx.
Qed.

Lemma last_or_None (pre : string) : last_or None pre = last_char pre.
Proof. unfold last_or. now destruct (last_char pre). Qed.

Lemma match_here_sound (prev : option ascii) (s g : string) :
  match_here prev s = Some g ->
  word_side prev = false
  /\ exists post,
      s = g ++ post /\ In (g, int_of_digits g) rating_tokens
      /\ word_side (head post) = false.
Proof.
  unfold match_here.
  destruct (boundary prev (head s)) eqn:Hb; [|discriminate].
  destruct s as [|c r]; [discriminate|].
  destruct (is_1_to_9 c && boundary (Some c) (head r)) eqn:H1.
  - intro H. injection H as <-.
    apply andb_true_iff in H1 as [Hc Hb2].
    destruct (is_1_to_9_token c Hc) as [Hin Hw].
    unfold boundary in Hb, Hb2. simpl in Hb, Hb2. rewrite Hw in Hb, Hb2.
    split; [now destruct (word_side prev)|].
    exists r. repeat split; [assumption|].
    now destruct (word_side (head r)).
  - destruct r as [|c2 r2]; [discriminate|].
    destruct (Ascii.eqb c "1" && Ascii.eqb c2 "0"
              && boundary (Some c2) (head r2)) eqn:H2; [|discriminate].
    intro H. injection H as <-.
    apply andb_true_iff in H2 as [H2 Hb2].
    apply andb_true_iff in H2 as [Hc Hc2].
    apply Ascii.eqb_eq in Hc, Hc2. subst c c2.
    unfold boundary in Hb, Hb2. simpl in Hb, Hb2.
    split; [now destruct (word_side prev)|].
    exists r2. repeat split; [simpl; tauto|].
    now destruct (word_side (head r2)).
Qed.

Lemma search_sound (s : string) :
  forall prev g,
    search prev s = Some g ->
    exists pre post,
      s = pre ++ g ++ post /\ In (g, int_of_digits g) rating_tokens
      /\ word_side (last_or prev pre) = false
      /\ word_side (head post) = false.
Proof.
  induction s as [|c r IH]; intros prev g H.
  - simpl in H. destruct (match_here prev "") eqn:Hm; [|discriminate].
    unfold match_here in Hm. simpl in Hm.
    destruct (boundary prev None); discriminate.
  - simpl in H. destruct (match_here prev (String c r)) eqn:Hm.
    + injection H as ->.
      destruct (match_here_sound _ _ _ Hm) as [Hp [post [Hs [Hin Hpost]]]].
      exists "", post. simpl. auto.
    + destruct (IH _ _ H) as [pre [post [Hs [Hin [Hpre Hpost]]]]].
      exists (String c pre), post. rewrite last_or_cons.
      simpl. rewrite Hs. auto.
Qed.

Lemma match_here_token (prev : option ascii) (tok post : string) (n : Z) :
  In (tok, n) rating_tokens ->
  word_side prev = false -> word_side (head post) = false ->
  match_here prev (tok ++ post) = Some tok.
Proof.
  intros Hin Hp Hpost.
  destruct (token_shape _ _ Hin) as [[c [-> Hc]] | ->].
  - destruct (is_1_to_9_token c Hc) as [_ Hw].
    unfold match_here, boundary. simpl. rewrite Hp, Hw, Hc, Hpost. reflexivity.
  - unfold match_here, boundary. simpl. rewrite Hp, Hpost. reflexivity.
Qed.

Lemma search_complete (pre : string) :
  forall prev tok post n,
    In (tok, n) rating_tokens ->
    word_side (last_or prev pre) = false ->
    word_side (head post) = false ->
    exists g, search prev (pre ++ tok ++ post) = Some g.
Proof.
  induction pre as [|c pre IH]; intros prev tok post n Hin Hp Hpost.
  - unfold last_or in Hp. simpl in Hp.
    pose proof (match_here_token prev tok post n Hin Hp Hpost) as Hm.
    exists tok. simpl. destruct (tok ++ post); simpl; now rewrite Hm.
  - rewrite last_or_cons in Hp.
    destruct (IH (Some c) tok post n Hin Hp Hpost) as [g Hg].
    simpl. destruct (match_here prev (String c (pre ++ tok ++ post))); eauto.
Qed.

Lemma match_here_side (p1 p2 : option ascii) (s : string) :
  word_side p1 = word_side p2 -> match_here p1 s = match_here p2 s.
Proof. intro H. unfold match_here, boundary. now rewrite H. Qed.

Lemma search_side (p1 p2 : option ascii) (s : string) :
  word_side p1 = word_side p2 -> search p1 s = search p2 s.
Proof.
  intro H. destruct s; simpl; now rewrite (match_here_side p1 p2 _ H).
Qed.

Lemma space_not_digit (c : ascii) :
  isspace c = true ->
  is_1_to_9 c = false /\ Ascii.eqb c "0" = false /\ Ascii.eqb c "1" = false.
Proof. each_char c; intro H; try discriminate H; repeat split. Qed.

Lemma match_here_space (prev : option ascii) (c : ascii) (r : string) :
  isspace c = true -> match_here prev (String c r) = None.
Proof.
  intro Hc. destruct (space_not_digit c Hc) as [H9 [_ H1]].
  unfold match_here. rewrite H9, H1. cbn [andb].
  destruct (boundary prev (head (String c r))); [|reflexivity].
  now destruct r.
Qed.

Lemma search_lstrip (s : string) (prev : option ascii) :
  word_side prev = false -> search prev (lstrip s) = search prev s.
Proof.
  induction s as [|c r IH]; intro Hp; [reflexivity|].
  simpl lstrip. destruct (isspace c) eqn:Hc; [|reflexivity].
  rewrite (IH Hp). cbn [search]. rewrite (match_here_space prev c r Hc).
  apply search_side. cbn [word_side].
  now rewrite (isspace_not_word c Hc).
Qed.

Lemma head_rstrip_side (r : string) :
  word_side (head (rstrip r)) = word_side (head r).
Proof.
  destruct r as [|c r]; [reflexivity|]. simpl.
  destruct (isspace c && is_empty (rstrip r)) eqn:H; [|reflexivity].
  apply andb_true_iff in H as [Hc _]. simpl.
  now rewrite (isspace_not_word c Hc).
Qed.

Lemma boundary_rstrip (p : option ascii) (r : string) :
  boundary p (head (rstrip r)) = boundary p (head r).
Proof. unfold boundary. now rewrite head_rstrip_side. Qed.

Lemma match_here_rstrip (c : ascii) (r : string) (prev : option ascii) :
  match_here prev (String c (rstrip r)) = match_here prev (String c r).
Proof.
  unfold match_here. cbn [head].
  destruct (boundary prev (Some c)); [|reflexivity].
  rewrite boundary_rstrip.
  destruct (is_1_to_9 c && boundary (Some c) (head r)); [reflexivity|].
  destruct r as [|c2 r2]; [reflexivity|]. simpl rstrip.
  destruct (isspace c2 && is_empty (rstrip r2)) eqn:H2.
  - apply andb_true_iff in H2 as [Hc2 _].
    destruct (space_not_digit c2 Hc2) as [_ [H0 _]].
    now rewrite H0, andb_false_r.
  - now rewrite boundary_rstrip.
Qed.

Lemma search_rstrip (s : string) :
  forall prev, search prev (rstrip s) = search prev s.
Proof.
  induction s as [|c r IH]; intro prev; [reflexivity|].
  simpl rstrip. destruct (isspace c && is_empty (rstrip r)) eqn:H.
  - apply andb_true_iff in H as [Hc He].
    destruct (rstrip r) eqn:Hr; [|discriminate].
    cbn [search]. rewrite <- (IH (Some c)).
    rewrite (match_here_space prev c r Hc).
    simpl. unfold match_here. simpl.
    now destruct (boundary prev None), (boundary (Some c) None).
  - cbn [search]. now rewrite match_here_rstrip, IH.
Qed.

Lemma parse_1_to_10_search (s : string) :
  parse_1_to_10 s = option_map int_of_digits (search None s).
Proof.
  unfold parse_1_to_10, strip.
  rewrite search_rstrip, search_lstrip by reflexivity.
  now destruct (search None s).
Qed.

(** C6.  [parse_1_to_10 s] is an integer from 1 to 10 exactly when [s]
    contains one of the tokens "1" to "9" or "10" as a whole word, and the
    integer returned is that of such a token; otherwise the result is
    absent.  It is absent for "100", "11" and "0". *)
Theorem parse_1_to_10_standalone_token :
  (forall s n,
      parse_1_to_10 s = Some n -> (1 <= n <= 10)%Z /\ standalone_rating s n)
  /\ (forall s,
         (exists n, standalone_rating s n) <-> parse_1_to_10 s <> None)
  /\ parse_1_to_10 "100" = None
  /\ parse_1_to_10 "11" = None
  /\ parse_1_to_10 "0" = None.
Proof.
  assert (Hsound : forall s n,
             parse_1_to_10 s = Some n ->
             (1 <= n <= 10)%Z /\ standalone_rating s n).
  { intros s n H. rewrite parse_1_to_10_search in H.
    destruct (search None s) as [g|] eqn:Hg; [|discriminate].
    injection H as <-.
    destruct (search_sound _ _ _ Hg) as [pre [post [Hs [Hin [Hpre Hpost]]]]].
    split; [apply (token_value g), Hin|].
    exists pre, g, post. rewrite last_or_None in Hpre. auto. }
  split; [exact Hsound | split; [|repeat split]].
  intro s. split.
  - intros [n [pre [tok [post [Hs [Hin [Hpre Hpost]]]]]]].
    rewrite parse_1_to_10_search, Hs.
    rewrite <- last_or_None in Hpre.
    destruct (search_complete pre None tok post n Hin Hpre Hpost) as [g Hg].
    rewrite Hg. discriminate.
  - intro H. destruct (parse_1_to_10 s) as [n|] eqn:Hn; [|contradiction].
    exists n. now apply Hsound.
Qed.

Lemma parse_1_to_10_standalone_token_witness :
  (1 <= 8 <= 10)%Z /\ standalone_rating "I'd say 8" 8.
Proof.
  apply (proj1 parse_1_to_10_standalone_token "I'd say 8" 8%Z).
  reflexivity.
Defined.

(** ** Dictionaries *)

Lemma dict_find_set {V : Type} (d : dict V) (k k' : string) (v : V) :
  dict_find (dict_set d k v) k'
  = if String.eqb k k' then Some v else dict_find d k'.
Proof.
  induction d as [|[k0 v0] d IH]; simpl.
  - reflexivity.
  - destruct (String.eqb_spec k0 k) as [->|Hk0]; simpl.
    + now destruct (k =? k')%string.
    + rewrite IH. destruct (String.eqb_spec k0 k') as [->|_]; [|reflexivity].
      destruct (String.eqb_spec k k') as [->|_]; [contradiction | reflexivity].
Qed.

Lemma Forall_take {A : Type} (P : A -> Prop) (n : nat) (l : list A) :
  Forall P l -> Forall P (firstn n l).
Proof.
  revert l. induction n as [|n IH]; intros l H; [constructor|].
  destruct H; simpl; constructor; auto.
Qed.

(** ** [llm_generate_questions] *)

Section Questions.

Variable X : host.

Lemma sanitize_fold (data : dict json) (techs : list string) :
  forall cleaned t,
    dict_find
      (fold_left
         (fun cleaned t =>
            match lookup_questions data t with
            | JList qs => dict_set cleaned t (sanitize_list X t qs)
            | _ => cleaned
            end) techs cleaned) t
    = if existsb (String.eqb t) techs
      then match stored_for X data t with
           | Some v => Some v
           | None => dict_find cleaned t
           end
      else dict_find cleaned t.
Proof.
  induction techs as [|t0 techs IH]; intros cleaned t; simpl; [reflexivity|].
  rewrite IH. unfold stored_for.
  destruct (String.eqb_spec t t0) as [->|Hne]; simpl.
  - destruct (lookup_questions data t0) eqn:Hl;
      try (now destruct (existsb (String.eqb t0) techs)).
    rewrite dict_find_set, String.eqb_refl.
    now destruct (existsb (String.eqb t0) techs).
  - destruct (lookup_questions data t0) eqn:Hl; try reflexivity.
    rewrite dict_find_set.
    destruct (String.eqb_spec t0 t) as [->|_]; [contradiction | reflexivity].
Qed.

Lemma sanitize_find (data : dict json) (techs : list string) (t : string) :
  In t techs -> dict_find (sanitize X data techs) t = stored_for X data t.
Proof.
  intro Hin. unfold sanitize. rewrite sanitize_fold.
  assert (E : existsb (String.eqb t) techs = true).
  { apply existsb_exists. exists t. split; [assumption | apply String.eqb_refl]. }
  rewrite E. now destruct (stored_for X data t).
Qed.

Lemma fallback_nonempty (t : string) :
  Forall (fun q => q <> "") (fallback_questions t).
Proof. repeat constructor; discriminate. Qed.

Lemma sanitize_list_bounds (t : string) (qs : list json) :
  3 <= List.length (sanitize_list X t qs) <= 5
  /\ Forall (fun q => q <> "") (sanitize_list X t qs).
Proof.
  unfold sanitize_list.
  set (kept := filter (fun q => negb (is_empty q))
                      (map (fun q => strip (py_str X q)) qs)).
  assert (Hk : Forall (fun q => q <> "") kept).
  { apply Forall_forall. intros q Hq. apply filter_In in Hq as [_ Hq].
    now destruct q. }
  destruct (Nat.ltb_spec (List.length kept) 3) as [Hlt | Hge].
  - split.
    + rewrite length_firstn, length_app.
      change (List.length (fallback_questions t)) with 3. lia.
    + apply Forall_take, Forall_app. split; [exact Hk | apply fallback_nonempty].
  - split.
    + rewrite length_firstn. lia.
    + now apply Forall_take.
Qed.

End Questions.

(** ** The generation client *)

Section Generation.

Variable X : host.

Lemma blind_bind {A B : Type} (m : M A) (k : A -> M B) :
  session_blind m -> (forall a, session_blind (k a)) ->
  session_blind (bind m k).
Proof.
  intros Hm Hk w s. unfold bind. rewrite Hm.
  destruct (m w) as [[a|e|] w1]; simpl; [apply Hk | reflexivity | reflexivity].
Qed.

Lemma blind_try {A : Type} (m h : M A) :
  session_blind m -> session_blind h -> session_blind (try_except m h).
Proof.
  intros Hm Hh w s. unfold try_except. rewrite Hm.
  destruct (m w) as [[a|e|] w1]; simpl; [reflexivity | apply Hh | reflexivity].
Qed.

Lemma blind_generate_content (p : prompt) :
  session_blind (generate_content X p).
Proof.
  intros w s. unfold generate_content. destruct w as [s0 f c sl]. simpl.
  now destruct (backend X c p).
Qed.

Lemma blind_safe_generate_from (p : prompt) (remaining : nat) :
  forall i, session_blind (safe_generate_from X p i remaining).
Proof.
  induction remaining as [|k IH]; intro i; simpl.
  - intros w s. reflexivity.
  - apply blind_try; [apply blind_generate_content|].
    apply blind_bind; [|intros _; apply IH].
    intros w s. reflexivity.
Qed.

Lemma blind_safe_generate (p : prompt) (retries : nat) :
  session_blind (safe_generate X p retries).
Proof. apply blind_safe_generate_from. Qed.

Lemma blind_llm_score_answer (q a : string) :
  session_blind (llm_score_answer X q a).
Proof.
  unfold llm_score_answer. apply blind_bind; [apply blind_safe_generate|].
  intros raw w s. reflexivity.
Qed.

Lemma blind_llm_final_summary info rt ans :
  session_blind (llm_final_summary X info rt ans).
Proof.
  unfold llm_final_summary. apply blind_bind; [apply blind_safe_generate|].
  intros raw w s. reflexivity.
Qed.

Lemma blind_llm_generate_questions (ts : list string) :
  session_blind (llm_generate_questions X ts).
Proof.
  unfold llm_generate_questions. apply blind_bind; [apply blind_safe_generate|].
  intros raw w s. reflexivity.
Qed.

Lemma set_st_same (w : world) : set_st (st w) w = w.
Proof. now destruct w. Qed.

Lemma blind_st {A : Type} (m : M A) (w : world) :
  session_blind m -> st (snd (m w)) = st w.
Proof.
  intro H. pose proof (H w (st w)) as E. rewrite set_st_same in E.
  rewrite E at 1. simpl. now destruct (snd (m w)).
Qed.

Lemma blind_halt_free_bind {A B : Type} (m : M A) (k : A -> M B) :
  (forall w, fst (m w) <> Halt) -> (forall a w, fst (k a w) <> Halt) ->
  forall w, fst (bind m k w) <> Halt.
Proof.
  intros Hm Hk w. unfold bind. specialize (Hm w).
  destruct (m w) as [[a|e|] w1]; simpl in *;
    [apply Hk | discriminate | contradiction].
Qed.

(** [safe_generate] never stops the script: it returns or raises. *)
Lemma safe_generate_from_no_halt (p : prompt) (remaining : nat) :
  forall i w, fst (safe_generate_from X p i remaining w) <> Halt.
Proof.
  induction remaining as [|k IH]; intros i w; simpl.
  - discriminate.
  - unfold try_except, generate_content.
    destruct (backend X (calls w) p); simpl; [discriminate|].
    unfold bind, time_sleep. apply IH.
Qed.

(** When every request fails, [safe_generate] raises [RuntimeError]. *)
Lemma safe_generate_from_all_fail (p : prompt) (remaining : nat) :
  (forall n q, backend X n q = None) ->
  forall i w, fst (safe_generate_from X p i remaining w) = Raise RuntimeError.
Proof.
  intro Hfail. induction remaining as [|k IH]; intros i w; simpl.
  - reflexivity.
  - unfold try_except, generate_content. rewrite Hfail.
    unfold bind, time_sleep. apply IH.
Qed.

(** Without a [try] around it, the failure leaves
    [llm_generate_questions] as an exception. *)
Lemma llm_generate_questions_all_fail (ts : list string) (w : world) :
  (forall n q, backend X n q = None) ->
  fst (llm_generate_questions X ts w) = Raise RuntimeError.
Proof.
  intro Hfail. unfold llm_generate_questions, bind, safe_generate.
  pose proof (safe_generate_from_all_fail
                (QuestionsPrompt (join ", " ts)) 3 Hfail 0 w) as E.
  destruct (safe_generate_from X (QuestionsPrompt (join ", " ts)) 0 3 w)
    as [[a|e|] w1]; simpl in *; congruence.
Qed.

End Generation.

(** C2, as amended.  When the request of [llm_generate_questions]
    succeeds, every tech of the input whose looked-up value (the first
    truthy one among the values under the exact, the capitalized and the
    lower-cased name, else the empty list) is a list is a key of the result
    and is mapped to at least 3 and at most 5 non-empty questions; a tech
    whose looked-up value is not a list is not a key of the result. *)
Theorem llm_generate_questions_three_to_five
        (X : host) (ts : list string) (w w1 : world) (raw : string) :
  safe_generate X (QuestionsPrompt (join ", " ts)) 3 w = (Ret raw, w1) ->
  exists qm,
    llm_generate_questions X ts w = (Ret qm, w1)
    /\ forall t, In t ts ->
         match lookup_questions (extract_or_empty X raw) t with
         | JList _ =>
             exists qs, dict_find qm t = Some qs
                        /\ 3 <= List.length qs <= 5
                        /\ Forall (fun q => q <> "") qs
         | _ => dict_find qm t = None
         end.
Proof.
  intro Hgen. exists (sanitize X (extract_or_empty X raw) ts). split.
  - unfold llm_generate_questions, bind. now rewrite Hgen.
  - intros t Hin. rewrite (sanitize_find X _ _ _ Hin). unfold stored_for.
    destruct (lookup_questions (extract_or_empty X raw) t); try reflexivity.
    eexists. split; [reflexivity|]. apply sanitize_list_bounds.
Qed.

Lemma llm_generate_questions_three_to_five_witness :
  exists qm,
    llm_generate_questions Scenario.scoring_down ["Python"] initial_world
    = (Ret qm, mk_world initial_session [] 1 [])
    /\ forall t, In t ["Python"] ->
         match lookup_questions
                 (extract_or_empty Scenario.scoring_down Scenario.reply_list) t
         with
         | JList _ =>
             exists qs, dict_find qm t = Some qs
                        /\ 3 <= List.length qs <= 5
                        /\ Forall (fun q => q <> "") qs
         | _ => dict_find qm t = None
         end.
Proof.
  apply (llm_generate_questions_three_to_five
           Scenario.scoring_down ["Python"] initial_world).
  reflexivity.
Defined.

(** C2, as stated, fails: the reply [{"Python": "What is a list?"}] is a
    successful call, and the result has no entry for "Python". *)
Lemma llm_generate_questions_skips_non_list :
  exists qm w1,
    llm_generate_questions Scenario.string_valued ["Python"] initial_world
    = (Ret qm, w1)
    /\ dict_find qm "Python" = None.
Proof. eexists. eexists. split; reflexivity. Qed.

(** ** Running the script *)

Lemma bind_ret {A B : Type} (a : A) (k : A -> M B) (w : world) :
  bind (ret a) k w = k a w.
Proof. reflexivity. Qed.

Lemma bind_get {B : Type} (k : session -> M B) (w : world) :
  bind get_session k w = k (st w) w.
Proof. reflexivity. Qed.

Lemma bind_update {B : Type} (f : session -> session) (k : unit -> M B)
      (w : world) :
  bind (update f) k w = k tt (set_st (f (st w)) w).
Proof. reflexivity. Qed.

Lemma bind_say {B : Type} (m : said) (k : unit -> M B) (w : world) :
  bind (say m) k w
  = k tt (set_st (set_history (history (st w) ++ [Assistant m])%list (st w)) w).
Proof. reflexivity. Qed.

Lemma bind_save {B : Type} (snap : snapshot) (k : unit -> M B) (w : world) :
  bind (save_simulated snap) k w = k tt (set_file (file w ++ [snap])%list w).
Proof. reflexivity. Qed.

Lemma bind_assoc {A B C : Type} (m : M A) (k : A -> M B) (h : B -> M C)
      (w : world) :
  bind (bind m k) h w = bind m (fun a => bind (k a) h) w.
Proof. unfold bind. now destruct (m w) as [[a|e|] w1]. Qed.

Lemma bind_stop {A B : Type} (k : A -> M B) (w : world) :
  bind st_stop k w = (Halt, w).
Proof. reflexivity. Qed.

Lemma bind_raise {A B : Type} (e : exn) (k : A -> M B) (w : world) :
  bind (raise e) k w = (Raise e, w).
Proof. reflexivity. Qed.

Create Rewrite HintDb script_db.
#[export] Hint Rewrite @bind_assoc @bind_ret @bind_get @bind_update @bind_say
  @bind_save @bind_stop @bind_raise : script_db.

(** Reduces the accessors of sessions and worlds on updated records. *)
Ltac fields :=
  cbn [st file calls slept set_st set_file set_calls set_slept
       history step field_index candidate techs ratings qmap flat_questions
       q_ptr answers consent rating_idx final_summary
       set_history set_step set_field_index set_candidate set_techs
       set_ratings set_qmap set_flat_questions set_q_ptr set_answers
       set_consent set_rating_idx set_final_summary fst snd].

Ltac steps := repeat (autorewrite with script_db; fields).

Lemma is_end_message_nonempty (msg : string) :
  is_end_message msg = true -> is_empty msg = false.
Proof. destruct msg; [discriminate | reflexivity]. Qed.

(** What [handle_user_input] does with an end message. *)
Lemma handle_end_message (X : host) (w : world) (msg : string) :
  is_end_message msg = true ->
  handle_user_input X msg w
  = (Halt,
     mk_world
       (set_history (history (st w) ++ [Assistant Closing])%list (st w))
       (if consent (st w)
        then (file w ++ [mk_snapshot (candidate (st w)) (ratings (st w))
                                     (answers (st w)) None])%list
        else file w)
       (calls w) (slept w)).
Proof.
  intro Hend. unfold handle_user_input.
  rewrite (is_end_message_nonempty msg Hend), Hend.
  steps. destruct (consent (st w)); steps; reflexivity.
Qed.




(** ** The tech list *)

Lemma length_take_le (n : nat) (s : string) : String.length (take n s) <= n.
Proof.
  revert s. induction n as [|n IH]; intros [|c s]; simpl; try lia.
  specialize (IH s). lia.
Qed.

Lemma take_nonempty (n : nat) (s : string) :
  is_empty s = false -> 1 <= String.length (take (S n) s).
Proof. destruct s; [discriminate | simpl; lia]. Qed.

Lemma tech_list_from_input_bounds (s : string) :
  List.length (tech_list_from_input s) <= 10
  /\ Forall (fun t => 1 <= String.length t <= 50) (tech_list_from_input s).
Proof.
  unfold tech_list_from_input. split.
  - rewrite length_firstn. lia.
  - apply Forall_take, Forall_forall. intros t Ht.
    apply in_map_iff in Ht as [t0 [<- Ht0]].
    apply filter_In in Ht0 as [_ Ht0].
    apply andb_true_iff in Ht0 as [Hne _].
    apply negb_true_iff in Hne.
    split; [now apply take_nonempty | apply length_take_le].
Qed.

Lemma split_on_not_nil (sep : ascii) (s : string) : split_on sep s <> [].
Proof.
  destruct s as [|c s]; simpl; [discriminate|].
  destruct (Ascii.eqb c sep); [discriminate|].
  destruct (split_on sep s); discriminate.
Qed.

(** Joining the pieces of [split] with the separator gives the text back. *)
Lemma join_split_on (sep : ascii) (s : string) :
  join (String sep "") (split_on sep s) = s.
Proof.
  induction s as [|c s IH]; [reflexivity|].
  pose proof (split_on_not_nil sep s) as Hn.
  simpl. destruct (Ascii.eqb_spec c sep) as [->|Hne].
  - destruct (split_on sep s) as [|h t]; [contradiction|].
    change (join (String sep "") ("" :: h :: t))
      with (String sep (join (String sep "") (h :: t))).
    now rewrite IH.
  - destruct (split_on sep s) as [|h t]; [contradiction|].
    destruct t as [|h2 t].
    + simpl in *. now rewrite IH.
    + change (join (String sep "") (String c h :: h2 :: t))
        with (String c (join (String sep "") (h :: h2 :: t))).
      now rewrite IH.
Qed.

Lemma split_on_pieces (sep : ascii) (s : string) :
  Forall (fun t => contains sep t = false) (split_on sep s).
Proof.
  induction s as [|c s IH]; [repeat constructor|].
  pose proof (split_on_not_nil sep s) as Hn.
  simpl. destruct (Ascii.eqb_spec c sep) as [->|Hne].
  - constructor; [reflexivity | exact IH].
  - destruct (split_on sep s) as [|h t]; [contradiction|].
    inversion IH as [|x l Hh Ht]; subst. constructor; [|exact Ht].
    unfold contains in *. simpl. rewrite Hh.
    destruct (Ascii.eqb_spec sep c); [now subst | reflexivity].
Qed.

Lemma nth_error_take {A : Type} (n i : nat) (l : list A) :
  i < n -> nth_error (firstn n l) i = nth_error l i.
Proof.
  revert i l. induction n as [|n IH]; intros i l Hi; [lia|].
  destruct l as [|a l]; [now destruct i|].
  destruct i as [|i]; [reflexivity|]. simpl. apply IH. lia.
Qed.

(** The parser against its description: the tokens, the ones kept, the
    cut to 50 characters and the cap of 10. *)
Lemma tech_list_from_input_tokens (s : string) :
  comma_tokens s (split_on "," s)
  /\ tech_list_from_input s
     = firstn 10 (map (take 50) (kept_tokens (split_on "," s)))
  /\ forall i, i < 10 ->
                nth_error (tech_list_from_input s) i
                = option_map (take 50)
                             (nth_error (kept_tokens (split_on "," s)) i).
Proof.
  split; [split; [apply join_split_on | apply split_on_pieces]|].
  split; [reflexivity|].
  intros i Hi. unfold tech_list_from_input.
  rewrite (nth_error_take 10 i _ Hi). apply nth_error_map.
Qed.

(** C4, as amended.  After a successful Tech Stack validation the
    session's [techs] is built from the comma-separated tokens of the
    trimmed input: each token is trimmed, the tokens that are not empty and
    have a letter are kept in input order, each is cut to its first 50
    characters, and the first 10 of them are retained, so that the i-th
    name is the i-th kept token, whether or not it equals an earlier one.
    It holds between 1 and 10 names of 1 to 50 characters each; the names
    are not compared with one another and need not be distinct. *)
Theorem tech_stack_validation_sets_techs (user_text : string) (w w' : world) :
  validate_and_store "Tech Stack" user_text w = (Ret None, w') ->
  exists tokens,
    comma_tokens (strip user_text) tokens
    /\ techs (st w') = firstn 10 (map (take 50) (kept_tokens tokens))
    /\ (forall i, i < 10 ->
                  nth_error (techs (st w')) i
                  = option_map (take 50) (nth_error (kept_tokens tokens) i))
    /\ 1 <= List.length (techs (st w')) <= 10
    /\ Forall (fun t => 1 <= String.length t <= 50) (techs (st w')).
Proof.
  unfold validate_and_store. cbn [String.eqb Ascii.eqb Bool.eqb].
  destruct (tech_list_from_input_bounds (strip user_text)) as [Hlen Hall].
  destruct (tech_list_from_input_tokens (strip user_text))
    as [Htok [Heq Hnth]].
  destruct (tech_list_from_input (strip user_text)) as [|t ts] eqn:Ht.
  - discriminate.
  - unfold store. steps. intro H. injection H as <-. fields.
    exists (split_on "," (strip user_text)).
    repeat split; try assumption; try apply Htok. simpl. lia.
Qed.

Lemma tech_stack_validation_sets_techs_witness :
  exists tokens,
    comma_tokens (strip "Python, , React , Node.js") tokens
    /\ techs (st (snd (validate_and_store
                         "Tech Stack" "Python, , React , Node.js"
                         initial_world)))
       = firstn 10 (map (take 50) (kept_tokens tokens)).
Proof.
  destruct (tech_stack_validation_sets_techs
              "Python, , React , Node.js" initial_world
              (snd (validate_and_store
                      "Tech Stack" "Python, , React , Node.js"
                      initial_world)))
    as [tokens [Htok [Heq _]]]; [vm_compute; reflexivity|].
  exists tokens. split; assumption.
Defined.

(** C4, as stated, fails: "Python, Python" is accepted and leaves the name
    twice in [techs]. *)
Lemma tech_stack_keeps_duplicates :
  fst (validate_and_store "Tech Stack" "Python, Python" initial_world)
  = Ret None
  /\ ~ NoDup (techs (st (snd (validate_and_store "Tech Stack" "Python, Python"
                                                 initial_world)))).
Proof.
  split; [reflexivity|].
  vm_compute. intro H. inversion H as [|x l Hnin _]. apply Hnin. now left.
Qed.

Lemma blind_at {A : Type} (m : M A) (s : session) (w : world) :
  session_blind m ->
  m (set_st s w) = (fst (m w), set_st s (snd (m w))).
Proof. intro H. apply (H w s). Qed.

Lemma set_st_set_st (s s' : session) (w : world) :
  set_st s (set_st s' w) = set_st s w.
Proof. reflexivity. Qed.

#[export] Hint Rewrite set_st_set_st : script_db.

Section Answers.

Variable X : host.

Lemma llm_final_summary_no_halt info rt ans (w : world) :
  fst (llm_final_summary X info rt ans w) <> Halt.
Proof.
  unfold llm_final_summary, safe_generate.
  apply blind_halt_free_bind; [apply safe_generate_from_no_halt|].
  discriminate.
Qed.

(** The end of [handle_tech_q] once the last answer is recorded. *)
Lemma summarizing_reaches_done (w : world) :
  exists w',
    (update (set_step Summary);;
     say PreparingSummary;;
     s <- get_session;;
     final <- try_except
                (llm_final_summary X (candidate s) (ratings s) (answers s))
                (ret summary_unavailable);;
     update (set_final_summary (Some final));;
     say (SummaryText final);;
     say Closing;;
     s <- get_session;;
     (if consent s
      then save_simulated
             (mk_snapshot (candidate s) (ratings s) (answers s) (Some final))
      else ret tt);;
     update (set_step Done)) w
    = (Ret tt, w')
    /\ step (st w') = Done
    /\ final_summary (st w') <> None
    /\ answers (st w') = answers (st w)
    /\ q_ptr (st w') = q_ptr (st w)
    /\ field_index (st w') = field_index (st w).
Proof.
  steps.
  unfold bind at 1, try_except.
  rewrite (blind_at _ _ w (blind_llm_final_summary X _ _ _)).
  pose proof (llm_final_summary_no_halt
                (candidate (st w)) (ratings (st w)) (answers (st w)) w) as Hnh.
  destruct (llm_final_summary X _ _ _ w) as [[final|e|] w1];
    [| |now contradiction Hnh];
    cbn [fst snd ret]; steps;
    (destruct (consent (st w)); steps; eexists; (split; [reflexivity|]);
     fields; repeat split; discriminate).
Qed.

End Answers.

(** C9.  When the scorer fails on an answer given in the question-asking
    phase, the script does not raise: the answer is recorded with absent
    score and feedback, the cursor advances, and either the next question
    is asked or the summary is produced and the session is done. *)
Theorem scoring_failure_keeps_interview_going
        (X : host) (w : world) (msg : string) (current : string * string)
        (e : exn) :
  is_empty msg = false ->
  is_end_message msg = false ->
  step (st w) = TechQ ->
  nth_error (flat_questions (st w)) (q_ptr (st w)) = Some current ->
  fst (llm_score_answer X (snd current) (strip msg) w) = Raise e ->
  exists w',
    handle_user_input X msg w = (Ret tt, w')
    /\ answers (st w')
       = (answers (st w)
            ++ [mk_answer (fst current) (snd current) (strip msg) None JNull])%list
    /\ q_ptr (st w') = S (q_ptr (st w))
    /\ match nth_error (flat_questions (st w)) (S (q_ptr (st w))) with
       | Some next_q =>
           step (st w') = TechQ
           /\ last (history (st w')) (User "")
              = Assistant
                  (Question (fst next_q)
                            (count_for_tech (flat_questions (st w))
                                            (S (q_ptr (st w))) (fst next_q))
                            (snd next_q))
       | None => step (st w') = Done /\ final_summary (st w') <> None
       end.
Proof.
  intros Hne Hend Hstep Hcur Hfail.
  unfold handle_user_input. rewrite Hne, Hend. steps.
  unfold dispatch. steps. rewrite Hstep.
  unfold handle_tech_q. steps. rewrite Hcur.
  unfold bind at 1, try_except.
  rewrite (blind_at _ _ w (blind_llm_score_answer X _ _)).
  destruct (llm_score_answer X (snd current) (strip msg) w) as [[sp|e'|] w1];
    try discriminate Hfail.
  cbn [fst snd ret]. steps.
  destruct (nth_error (flat_questions (st w)) (S (q_ptr (st w))))
    as [next_q|] eqn:Hnext.
  - unfold say, update. fields. eexists. split; [reflexivity|]. fields.
    repeat split; [exact Hstep | now rewrite last_last].
  - match goal with
    | |- context [bind (update (set_step Summary)) ?k ?w0] =>
        destruct (summarizing_reaches_done X w0) as [w' [Hrun [Hd [Hf [Ha [Hq _]]]]]]
    end.
    exists w'. split; [exact Hrun|]. rewrite Ha, Hq. fields. auto.
Qed.

Lemma scoring_failure_keeps_interview_going_witness :
  exists w',
    handle_user_input Scenario.scoring_down "It is a sequence."
                      (Scenario.question_awaited Scenario.scoring_down)
    = (Ret tt, w')
    /\ q_ptr (st w') = 1.
Proof.
  destruct (scoring_failure_keeps_interview_going
              Scenario.scoring_down
              (Scenario.question_awaited Scenario.scoring_down)
              "It is a sequence." ("Python", "What is a list?") RuntimeError)
    as [w' [Hrun [_ [Hq _]]]]; try reflexivity.
  exists w'. split; [exact Hrun | exact Hq].
Defined.

(** ** The field cursor *)

Lemma validate_and_store_frame (f t : string) (w : world) :
  exists o w',
    validate_and_store f t w = (Ret o, w')
    /\ step (st w') = step (st w)
    /\ field_index (st w') = field_index (st w)
    /\ fst (validate_and_store f t initial_world) = Ret o.
Proof.
  unfold validate_and_store, store.
  repeat match goal with
         | |- context [if ?b then _ else _] => destruct b
         | |- context [match tech_list_from_input ?u with _ => _ end] =>
             destruct (tech_list_from_input u)
         end;
    steps; eexists; eexists; repeat split.
Qed.

Lemma passes_validation_spec (f t : string) (w : world) :
  exists o w',
    validate_and_store f t w = (Ret o, w')
    /\ step (st w') = step (st w)
    /\ field_index (st w') = field_index (st w)
    /\ passes_validation f t = match o with None => true | Some _ => false end.
Proof.
  destruct (validate_and_store_frame f t w) as [o [w' [H [Hs [Hf Hi]]]]].
  exists o, w'. repeat split; try assumption.
  unfold passes_validation. rewrite Hi. now destruct o.
Qed.

Ltac phase := unfold index_in_phase; fields.

(** Keeps a single copy of the run [m] in the goal while it is unfolded. *)
Ltac single m :=
  pattern m;
  match goal with |- ?P _ => let Q := fresh "Q" in set (Q := P) end.

Ltac done_running :=
  match goal with Q := _ |- _ => subst Q end;
  cbv beta delta [say update ret]; cbn [fst snd]; fields.

Lemma handle_fields_index (w : world) (msg : string) :
  step (st w) = Fields ->
  field_index (st w) < List.length FIELDS ->
  exists f,
    nth_error FIELDS (field_index (st w)) = Some f
    /\ index_in_phase (st (snd (handle_fields msg w)))
    /\ field_index (st (snd (handle_fields msg w)))
       = if passes_validation f msg
         then S (field_index (st w)) else field_index (st w).
Proof.
  intros Hstep Hlt.
  destruct (nth_error FIELDS (field_index (st w))) as [f|] eqn:Hf;
    [|apply nth_error_None in Hf; lia].
  exists f. split; [reflexivity|].
  destruct (passes_validation_spec f msg w) as [o [w1 [Hv [Hs [Hi Hp]]]]].
  rewrite Hp. single (handle_fields msg w).
  unfold handle_fields. steps. rewrite Hf. unfold bind at 1. rewrite Hv.
  destruct o as [e|].
  - unfold say, update. done_running. phase. rewrite Hs, Hstep, Hi. auto.
  - steps. rewrite Hi.
    destruct (Nat.ltb_spec (S (field_index (st w))) (List.length FIELDS))
      as [Hnext | Hlast].
    + unfold ask_next_field. steps.
      destruct (nth_error FIELDS (S (field_index (st w)))); steps;
        done_running; phase; rewrite Hs, Hstep; auto.
    + steps. destruct (techs (st w1)); steps; done_running; phase;
        (split; [lia | reflexivity]).
Qed.

Section Cursor.

Variable X : host.

Lemma handle_ratings_index (w : world) (msg : string) :
  step (st w) = Ratings ->
  field_index (st w) = List.length FIELDS ->
  index_in_phase (st (snd (handle_ratings X msg w)))
  /\ (field_index (st (snd (handle_ratings X msg w))) = field_index (st w)
      \/ (field_index (st (snd (handle_ratings X msg w))) = 6
          /\ step (st (snd (handle_ratings X msg w))) = Fields
          /\ flat_questions (st (snd (handle_ratings X msg w))) = [])).
Proof.
  intros Hstep Hfi. single (handle_ratings X msg w).
  unfold handle_ratings. steps.
  destruct (nth_error (techs (st w)) _) as [t|];
    [|done_running; phase; rewrite Hstep; auto].
  destruct (parse_1_to_10 msg) as [val|];
    [|unfold say, update; done_running; phase; rewrite Hstep; auto].
  steps.
  destruct (nth_error (techs (st w)) (S _)) as [t'|];
    [unfold say, update; done_running; phase; rewrite Hstep; auto|].
  steps. unfold bind at 1.
  rewrite (blind_at _ _ w (blind_llm_generate_questions X _)).
  destruct (llm_generate_questions X (techs (st w)) w) as [[qm|e|] w1];
    cbn [fst snd]; try (done_running; phase; rewrite Hstep; now auto).
  steps. destruct (flatten (techs (st w)) qm) as [|first rest].
  - steps. cbn [list_index FIELDS String.eqb Ascii.eqb Bool.eqb].
    steps. done_running. phase. simpl. split; [lia|]. right. auto.
  - unfold say, update. done_running. phase. auto.
Qed.

Lemma llm_score_answer_no_halt (q a : string) (w : world) :
  fst (llm_score_answer X q a w) <> Halt.
Proof.
  unfold llm_score_answer, safe_generate.
  apply blind_halt_free_bind; [apply safe_generate_from_no_halt|].
  discriminate.
Qed.

Lemma handle_tech_q_index (w : world) (msg : string) :
  step (st w) = TechQ ->
  field_index (st w) = List.length FIELDS ->
  index_in_phase (st (snd (handle_tech_q X msg w)))
  /\ field_index (st (snd (handle_tech_q X msg w))) = field_index (st w).
Proof.
  intros Hstep Hfi. single (handle_tech_q X msg w).
  unfold handle_tech_q. steps.
  destruct (nth_error (flat_questions (st w)) (q_ptr (st w))) as [current|];
    [|done_running; phase; rewrite Hstep; auto].
  unfold bind at 1. unfold try_except.
  pose proof (llm_score_answer_no_halt (snd current) (strip msg) w) as Hnh.
  pose proof (blind_st (llm_score_answer X (snd current) (strip msg)) w
                       (blind_llm_score_answer X _ _)) as Hst.
  destruct (llm_score_answer X (snd current) (strip msg) w) as [[sp|e|] w1];
    [| |now contradiction Hnh].
  all: cbn [fst snd ret] in *; steps; rewrite ?Hst;
    destruct (nth_error (flat_questions (st w)) (S (q_ptr (st w))));
    [ unfold say, update; done_running; phase; rewrite ?Hst, Hstep; auto
    | match goal with
      | |- context [bind (update (set_step Summary)) ?k ?w0] =>
          destruct (summarizing_reaches_done X w0)
            as [w' [Hrun [Hd [_ [_ [_ Hf]]]]]];
          replace (bind (update (set_step Summary)) k w0) with (Ret tt, w')
            by (symmetry; exact Hrun)
      end;
      done_running; phase; rewrite Hd, Hf; fields;
      rewrite ?Hst; auto ].
Qed.

End Cursor.

Lemma handle_user_input_index (X : host) (w : world) (msg : string) :
  index_in_phase (st w) ->
  index_in_phase (st (snd (handle_user_input X msg w)))
  /\ cursor_move msg (st w) (st (snd (handle_user_input X msg w))).
Proof.
  intro Hinv. unfold cursor_move.
  destruct (is_empty msg) eqn:Hne.
  { unfold handle_user_input. rewrite Hne. cbn [ret snd andb negb].
    split; [assumption|]. unfold index_in_phase in Hinv.
    destruct (step (st w)); auto.
    destruct (nth_error FIELDS (field_index (st w))) as [f|] eqn:Hf;
      [eauto | apply nth_error_None in Hf; lia]. }
  destruct (is_end_message msg) eqn:Hend.
  { rewrite (handle_end_message X w msg Hend).
    cbn [snd andb negb]. fields. split; [exact Hinv|].
    unfold index_in_phase in Hinv.
    destruct (step (st w)); auto.
    destruct (nth_error FIELDS (field_index (st w))) as [f|] eqn:Hf;
      [eauto | apply nth_error_None in Hf; lia]. }
  cbn [andb negb].
  single (handle_user_input X msg w).
  unfold handle_user_input. rewrite Hne, Hend. steps.
  unfold dispatch. steps. subst Q. cbv beta.
  unfold index_in_phase in Hinv.
  destruct (step (st w)) eqn:Hstep; try contradiction.
  - match goal with
    | |- context [handle_fields msg ?w0] =>
        destruct (handle_fields_index w0 msg) as [f [Hf [Hi Hm]]];
          [exact Hstep | exact Hinv |]
    end.
    fields. split; [exact Hi|]. exists f. split; assumption.
  - match goal with
    | |- context [handle_ratings X msg ?w0] =>
        destruct (handle_ratings_index X w0 msg) as [Hi Hm];
          [exact Hstep | exact Hinv |]
    end.
    fields. split; [exact Hi|].
    destruct Hm as [Hm | [H6 [Hs Hq]]]; [now left | right].
    repeat split; assumption.
  - match goal with
    | |- context [handle_tech_q X msg ?w0] =>
        destruct (handle_tech_q_index X w0 msg) as [Hi Hm];
          [exact Hstep | exact Hinv |]
    end.
    fields. split; assumption.
  - unfold say, update. cbn [snd]. fields. phase. rewrite Hstep. auto.
  - unfold say, update. cbn [snd]. fields. phase. rewrite Hstep. auto.
Qed.

Lemma greet_block_after_greeting (w : world) :
  step (st w) <> Greet -> greet_block w = (Ret tt, w).
Proof.
  intro H. unfold greet_block. steps. now destruct (step (st w)).
Qed.

Lemma script_run_after_greeting (X : host) (cb : bool) (msg : string)
      (w : world) :
  step (st w) <> Greet ->
  script_run X cb (Some msg) w
  = handle_user_input X msg (set_st (set_consent cb (st w)) w).
Proof.
  intro H. unfold script_run. steps.
  unfold bind. rewrite greet_block_after_greeting; [reflexivity | exact H].
Qed.

Lemma index_in_phase_not_greet (s : session) :
  index_in_phase s -> step s <> Greet.
Proof. unfold index_in_phase. destruct (step s); [contradiction | discriminate..]. Qed.

Lemma reachable_index_in_phase (X : host) (w : world) :
  reachable X w -> index_in_phase (st w).
Proof.
  induction 1 as [cb | w cb input Hw IH | w cb Hw IH].
  3: { unfold erase_session_data. vm_compute. lia. }
  - vm_compute. lia.
  - destruct input as [msg|].
    + rewrite script_run_after_greeting
        by now apply index_in_phase_not_greet.
      now apply handle_user_input_index.
    + unfold script_run. steps. unfold bind.
      rewrite greet_block_after_greeting
        by (fields; now apply index_in_phase_not_greet).
      exact IH.
Qed.






(** C1 at its failing input: every request to the generation service
    fails and the rating of the only tech comes in.  The run ends with the
    [RuntimeError] of [safe_generate] still propagating, no question has
    been produced, the session stays in the rating phase, and the next
    message gets no reply at all. *)
Theorem question_generation_failure_escapes :
  let w := Scenario.rating_awaited Scenario.failing in
  let out := script_run Scenario.failing true (Some "7") w in
  let next := script_run Scenario.failing true (Some "7") (snd out) in
  step (st w) = Ratings
  /\ techs (st w) = ["Python"]
  /\ fst out = Raise RuntimeError
  /\ step (st (snd out)) = Ratings
  /\ flat_questions (st (snd out)) = []
  /\ history (st (snd next)) = (history (st (snd out)) ++ [User "7"])%list.
Proof. vm_compute. repeat split. Qed.

(** * Further properties *)

(** ** [anonymize] *)

Lemma masked_from_refl (s : string) : masked_from s s = true.
Proof.
  induction s as [|c s IH]; [reflexivity|].
  simpl. now rewrite Ascii.eqb_refl, IH.
Qed.

Lemma masked_from_app (a a' b b' : string) :
  masked_from a a' = true -> masked_from b b' = true ->
  masked_from (a ++ b) (a' ++ b') = true.
Proof.
  revert a'. induction a as [|c a IH]; intros [|c' a'] Ha Hb;
    try discriminate Ha; [exact Hb|].
  simpl in *. apply andb_true_iff in Ha as [Hc Ha].
  now rewrite Hc, (IH a' Ha Hb).
Qed.

Lemma masked_from_stars (s : string) :
  sall (fun c => isalpha c || isdecimal c) s = true ->
  masked_from s (stars (String.length s)) = true.
Proof.
  induction s as [|c s IH]; [reflexivity|].
  simpl. intro H. apply andb_true_iff in H as [Hc Hs].
  rewrite Hc, (IH Hs). now rewrite orb_true_r.
Qed.

Lemma masked_from_length (s out : string) :
  masked_from s out = true -> String.length out = String.length s.
Proof.
  revert out. induction s as [|c s IH]; intros [|c' out] H;
    try discriminate H; [reflexivity|].
  simpl in *. apply andb_true_iff in H as [_ H]. now rewrite (IH out H).
Qed.

Lemma sall_weaken (p q : ascii -> bool) (s : string) :
  (forall c, p c = true -> q c = true) -> sall p s = true -> sall q s = true.
Proof.
  intro Hpq. induction s as [|c s IH]; [reflexivity|].
  simpl. intro H. apply andb_true_iff in H as [Hc Hs].
  now rewrite (Hpq c Hc), (IH Hs).
Qed.

Lemma anonymize_part_masked (p : string) :
  masked_from p (anonymize_part p) = true.
Proof.
  unfold anonymize_part. destruct p as [|c r]; [reflexivity|].
  destruct (sall isalpha (String c r) && (1 <? String.length (String c r))%nat)
    eqn:Ha.
  - apply andb_true_iff in Ha as [Ha _]. simpl in Ha.
    apply andb_true_iff in Ha as [_ Hr].
    cbn [String.length Nat.sub]. rewrite Nat.sub_0_r.
    cbn [masked_from]. rewrite Ascii.eqb_refl. cbn [orb andb].
    apply masked_from_stars.
    apply (sall_weaken isalpha); [|exact Hr].
    intros x Hx. now rewrite Hx.
  - destruct (sall isdecimal (String c r)
              && (3 <=? String.length (String c r))%nat) eqn:Hd.
    + apply andb_true_iff in Hd as [Hd _].
      apply masked_from_stars.
      apply (sall_weaken isdecimal); [|exact Hd].
      intros x Hx. rewrite Hx. apply orb_true_r.
    + apply masked_from_refl.
Qed.

Lemma concat_empty_cons (x : string) (l : list string) :
  String.concat "" (x :: l) = x ++ String.concat "" l.
Proof.
  destruct l as [|y l]; simpl; [|reflexivity].
  induction x as [|c x IH]; simpl; congruence.
Qed.

Lemma concat_empty_app (l1 l2 : list string) :
  String.concat "" (l1 ++ l2)%list
  = String.concat "" l1 ++ String.concat "" l2.
Proof.
  induction l1 as [|x l1 IH]; [reflexivity|].
  rewrite <- app_comm_cons, !concat_empty_cons, IH.
  induction x as [|c x IHx]; simpl; congruence.
Qed.

Lemma append_empty_r (s : string) : s ++ "" = s.
Proof. induction s as [|c s IH]; simpl; congruence. Qed.

Lemma concat_runs (s : string) : String.concat "" (map snd (runs s)) = s.
Proof.
  induction s as [|c s IH]; [reflexivity|].
  simpl runs. destruct (runs s) as [|[b h] t].
  - simpl in *. now rewrite <- IH.
  - cbn [map snd] in IH. rewrite concat_empty_cons in IH.
    destruct (Bool.eqb b (isword c)); cbn [map snd];
      rewrite !concat_empty_cons; simpl; now rewrite <- IH.
Qed.

(** Joining the pieces of [re.split] gives the text back. *)
Lemma concat_re_split_nonword (s : string) :
  String.concat "" (re_split_nonword s) = s.
Proof.
  unfold re_split_nonword. pose proof (concat_runs s) as H.
  destruct (runs s) as [|[b h] t]; [now simpl in H|].
  rewrite !concat_empty_app, H.
  destruct b, (fst (last t (true, h))), (fst (last t (false, h)));
    simpl; now rewrite ?append_empty_r.
Qed.

Lemma concat_map_masked (parts : list string) :
  masked_from (String.concat "" parts)
              (String.concat "" (map anonymize_part parts)) = true.
Proof.
  induction parts as [|p parts IH]; [reflexivity|].
  cbn [map]. rewrite !concat_empty_cons.
  apply masked_from_app; [apply anonymize_part_masked | exact IH].
Qed.

(** X1.  [anonymize] masks in place: the result has the length of the
    input, and each of its characters is the input's character at that
    position or an asterisk standing for a letter or a decimal digit; every
    other character (white space, punctuation, the underscore) is kept. *)
Theorem anonymize_masks_in_place (value : string) :
  masked_from value (anonymize value) = true
  /\ String.length (anonymize value) = String.length value.
Proof.
  assert (H : masked_from value (anonymize value) = true).
  { unfold anonymize. destruct (is_empty value); [apply masked_from_refl|].
    rewrite <- (concat_re_split_nonword value) at 1.
    apply concat_map_masked. }
  split; [exact H | now apply masked_from_length].
Qed.

(** ** The tech list, continued *)

Lemma sany_app (p : ascii -> bool) (a b : string) :
  sany p (a ++ b) = sany p a || sany p b.
Proof.
  induction a as [|c a IH]; [reflexivity|].
  simpl. now rewrite IH, orb_assoc.
Qed.

Lemma sany_lstrip (p : ascii -> bool) (s : string) :
  (forall c, isspace c = true -> p c = false) ->
  sany p (lstrip s) = sany p s.
Proof.
  intro Hp. induction s as [|c s IH]; [reflexivity|].
  simpl. destruct (isspace c) eqn:Hc; [|reflexivity].
  now rewrite IH, (Hp c Hc).
Qed.

Lemma sany_rstrip (p : ascii -> bool) (s : string) :
  (forall c, isspace c = true -> p c = false) ->
  sany p (rstrip s) = sany p s.
Proof.
  intro Hp. induction s as [|c s IH]; [reflexivity|].
  simpl. destruct (isspace c && is_empty (rstrip s)) eqn:H.
  - apply andb_true_iff in H as [Hc He].
    destruct (rstrip s); [|discriminate].
    simpl in IH. now rewrite <- IH, (Hp c Hc).
  - simpl. now rewrite IH.
Qed.

Lemma sany_strip (p : ascii -> bool) (s : string) :
  (forall c, isspace c = true -> p c = false) ->
  sany p (strip s) = sany p s.
Proof.
  intro Hp. unfold strip. now rewrite sany_rstrip, sany_lstrip.
Qed.

Lemma sany_lstrip_sub (p : ascii -> bool) (s : string) :
  sany p s = false -> sany p (lstrip s) = false.
Proof.
  induction s as [|c s IH]; [reflexivity|].
  simpl. intro H. apply orb_false_iff in H as [Hc Hs].
  destruct (isspace c); [auto | simpl; now rewrite Hc, Hs].
Qed.

Lemma sany_rstrip_sub (p : ascii -> bool) (s : string) :
  sany p s = false -> sany p (rstrip s) = false.
Proof.
  induction s as [|c s IH]; [reflexivity|].
  simpl. intro H. apply orb_false_iff in H as [Hc Hs].
  destruct (isspace c && is_empty (rstrip s)); [reflexivity|].
  simpl. now rewrite Hc, (IH Hs).
Qed.

Lemma sany_take_sub (p : ascii -> bool) (n : nat) (s : string) :
  sany p s = false -> sany p (take n s) = false.
Proof.
  revert s. induction n as [|n IH]; intros [|c s] H; try reflexivity.
  simpl in *. apply orb_false_iff in H as [Hc Hs]. now rewrite Hc, (IH s Hs).
Qed.

Lemma existsb_split_on (p : ascii -> bool) (sep : ascii) (s : string) :
  p sep = false -> existsb (sany p) (split_on sep s) = sany p s.
Proof.
  intro Hsep. induction s as [|c s IH]; [reflexivity|].
  simpl. destruct (Ascii.eqb_spec c sep) as [->|Hne].
  - simpl. now rewrite IH, Hsep.
  - pose proof (split_on_not_nil sep s) as Hn.
    destruct (split_on sep s) as [|h t]; [contradiction|].
    simpl in *. now rewrite <- IH, orb_assoc.
Qed.

Lemma letter_not_space (c : ascii) :
  isspace c = true -> is_ascii_letter c = false.
Proof. each_char c; intro H; try discriminate H; reflexivity. Qed.

Lemma head_lstrip (s : string) :
  match head (lstrip s) with Some c => isspace c = false | None => True end.
Proof.
  induction s as [|c s IH]; [exact I|].
  simpl. destruct (isspace c) eqn:Hc; [exact IH | exact Hc].
Qed.

Lemma head_rstrip (s : string) :
  match head s with
  | Some c => isspace c = false -> head (rstrip s) = Some c
  | None => True
  end.
Proof.
  destruct s as [|c s]; [exact I|]. simpl. intro Hc. now rewrite Hc.
Qed.

Lemma head_strip (s : string) :
  match head (strip s) with Some c => isspace c = false | None => True end.
Proof.
  unfold strip. pose proof (head_lstrip s) as Hl.
  pose proof (head_rstrip (lstrip s)) as Hr.
  destruct (head (lstrip s)) as [c|] eqn:Hh.
  - now rewrite (Hr Hl).
  - destruct (lstrip s); [exact I | discriminate].
Qed.

Lemma head_take (n : nat) (s : string) : head (take (S n) s) = head s.
Proof. now destruct s. Qed.

Lemma firstn_nil_iff {A : Type} (n : nat) (l : list A) :
  firstn (S n) l = [] <-> l = [].
Proof. destruct l; simpl; split; congruence. Qed.

Lemma map_nil_iff {A B : Type} (g : A -> B) (l : list A) :
  map g l = [] <-> l = [].
Proof. destruct l; simpl; split; congruence. Qed.

Lemma filter_nil_iff {A : Type} (f : A -> bool) (l : list A) :
  filter f l = [] <-> existsb f l = false.
Proof.
  induction l as [|x l IH]; simpl; [tauto|].
  destruct (f x); simpl; [split; discriminate | exact IH].
Qed.

Lemma existsb_map {A B : Type} (f : B -> bool) (g : A -> B) (l : list A) :
  existsb f (map g l) = existsb (fun x => f (g x)) l.
Proof. induction l as [|x l IH]; simpl; congruence. Qed.

Lemma existsb_ext_eq {A : Type} (f g : A -> bool) (l : list A) :
  (forall x, f x = g x) -> existsb f l = existsb g l.
Proof. intro H. induction l as [|x l IH]; simpl; congruence. Qed.

Lemma sany_nonempty (p : ascii -> bool) (t : string) :
  negb (is_empty t) && sany p t = sany p t.
Proof. now destruct t. Qed.

(** X2.  [tech_list_from_input] returns no name exactly when the input has
    no letter of [a-zA-Z]; so the Tech Stack field is refused exactly
    then. *)
Theorem tech_list_empty_iff_no_letter (s : string) :
  tech_list_from_input s = [] <-> sany is_ascii_letter s = false.
Proof.
  unfold tech_list_from_input.
  rewrite firstn_nil_iff, map_nil_iff, filter_nil_iff, existsb_map.
  rewrite (existsb_ext_eq _ (sany is_ascii_letter)).
  - now rewrite existsb_split_on.
  - intro t. rewrite sany_nonempty. apply sany_strip, letter_not_space.
Qed.

Lemma tech_list_empty_iff_no_letter_witness :
  tech_list_from_input "12, 3.5 , #" = [].
Proof.
  apply (proj2 (tech_list_empty_iff_no_letter "12, 3.5 , #")). reflexivity.
Defined.

(** X3.  No name returned by [tech_list_from_input] contains a comma, and
    every name starts with a character that is not white space. *)
Theorem tech_names_are_clean (s : string) :
  Forall (fun t => contains "," t = false
                   /\ match head t with
                      | Some c => isspace c = false
                      | None => False
                      end)
         (tech_list_from_input s).
Proof.
  unfold tech_list_from_input.
  apply Forall_take, Forall_forall. intros t Ht.
  apply in_map_iff in Ht as [t0 [<- Ht0]].
  apply filter_In in Ht0 as [Hin Hok].
  apply andb_true_iff in Hok as [Hne _].
  apply in_map_iff in Hin as [piece [<- Hpiece]].
  split.
  - apply sany_take_sub. unfold strip.
    apply sany_rstrip_sub, sany_lstrip_sub.
    exact (proj1 (Forall_forall _ _) (split_on_pieces "," s) piece Hpiece).
  - rewrite head_take. pose proof (head_strip piece) as Hh.
    destruct (strip piece); [discriminate Hne | exact Hh].
Qed.

(** ** [parse_1_to_10], continued *)

Lemma token_has_digit (tok : string) (n : Z) :
  In (tok, n) rating_tokens -> sany is_1_to_9 tok = true.
Proof.
  intro H. destruct (token_shape tok n H) as [[c [-> Hc]] | ->].
  - simpl. now rewrite Hc.
  - reflexivity.
Qed.

(** X4.  A text without any of the digits 1 to 9 is never parsed as a
    rating. *)
Theorem parse_1_to_10_needs_a_digit (s : string) :
  sany is_1_to_9 s = false -> parse_1_to_10 s = None.
Proof.
  intro H. rewrite parse_1_to_10_search.
  destruct (search None s) as [g|] eqn:Hg; [|reflexivity].
  destruct (search_sound s None g Hg) as [pre [post [Hs [Hin _]]]].
  rewrite Hs, !sany_app, (token_has_digit g _ Hin) in H.
  now rewrite orb_true_r in H.
Qed.

Lemma parse_1_to_10_needs_a_digit_witness :
  parse_1_to_10 "zero, 0 or 00" = None.
Proof. apply parse_1_to_10_needs_a_digit. reflexivity. Defined.

(** ** [safe_extract_json] *)

Lemma take_drop (n : nat) (s : string) : take n s ++ drop n s = s.
Proof.
  revert s. induction n as [|n IH]; intros [|c s]; simpl; try reflexivity.
  now rewrite IH.
Qed.

Lemma drop_drop (a b : nat) (s : string) : drop a (drop b s) = drop (a + b) s.
Proof.
  revert s. induction b as [|b IH]; intros s.
  - now rewrite Nat.add_0_r.
  - rewrite Nat.add_succ_r. destruct s as [|c s]; simpl.
    + now destruct a.
    + apply IH.
Qed.

Lemma take_succ_drop (n : nat) (s : string) (c : ascii) (r : string) :
  drop n s = String c r -> take (S n) s = take n s ++ String c "".
Proof.
  revert s. induction n as [|n IH]; intros [|a s] H; simpl in *;
    try discriminate H.
  - now injection H as -> _.
  - now rewrite (IH s H).
Qed.

Lemma drop_succ (n : nat) (s : string) (c : ascii) (r : string) :
  drop n s = String c r -> drop (S n) s = r.
Proof.
  revert s. induction n as [|n IH]; intros [|a s] H; simpl in *;
    try discriminate H.
  - now injection H as _ ->.
  - exact (IH s H).
Qed.

Lemma last_char_snoc (a : string) (c : ascii) :
  last_char (a ++ String c "") = Some c.
Proof.
  induction a as [|x a IH]; [reflexivity|].
  simpl. destruct (a ++ String c "") eqn:E; [|exact IH].
  destruct a; discriminate E.
Qed.

Lemma find_drop (ch : ascii) (s : string) (i : nat) :
  find ch s = Some i ->
  exists r, drop i s = String ch r /\ contains ch (take i s) = false.
Proof.
  revert i. induction s as [|c s IH]; intros i H; [discriminate|].
  simpl in H. destruct (Ascii.eqb_spec c ch) as [->|Hne].
  - injection H as <-. now exists s.
  - destruct (find ch s) as [j|]; [|discriminate]. injection H as <-.
    destruct (IH j eq_refl) as [r [Hd Hc]]. exists r. split; [exact Hd|].
    unfold contains in *. simpl. rewrite Hc.
    destruct (Ascii.eqb_spec ch c); [now subst | reflexivity].
Qed.

Lemma rfind_none (ch : ascii) (s : string) :
  rfind ch s = None -> contains ch s = false.
Proof.
  induction s as [|c s IH]; [reflexivity|].
  simpl. destruct (rfind ch s); [discriminate|].
  destruct (Ascii.eqb_spec c ch) as [->|Hne]; [discriminate|]. intros _.
  unfold contains in *. simpl. rewrite (IH eq_refl).
  destruct (Ascii.eqb_spec ch c); [now subst | reflexivity].
Qed.

Lemma rfind_drop (ch : ascii) (s : string) (j : nat) :
  rfind ch s = Some j ->
  exists r, drop j s = String ch r /\ contains ch r = false.
Proof.
  revert j. induction s as [|c s IH]; intros j H; [discriminate|].
  simpl in H. destruct (rfind ch s) as [k|] eqn:Hk.
  - injection H as <-. exact (IH k eq_refl).
  - destruct (Ascii.eqb_spec c ch) as [->|Hne]; [|discriminate].
    injection H as <-. exists s. split; [reflexivity | now apply rfind_none].
Qed.

Lemma find_none (ch : ascii) (s : string) :
  contains ch s = false -> find ch s = None.
Proof.
  induction s as [|c s IH]; [reflexivity|].
  unfold contains. simpl. intro H. apply orb_false_iff in H as [Hc Hs].
  rewrite Ascii.eqb_sym, Hc. now rewrite (IH Hs).
Qed.

Lemma rfind_none_iff (ch : ascii) (s : string) :
  contains ch s = false -> rfind ch s = None.
Proof.
  induction s as [|c s IH]; [reflexivity|].
  unfold contains. simpl. intro H. apply orb_false_iff in H as [Hc Hs].
  rewrite (IH Hs). now rewrite Ascii.eqb_sym, Hc.
Qed.

(** The slice [text[start : stop + 1]] taken between two found braces. *)
Lemma brace_snippet (text : string) (start stop : nat) (a b : ascii) :
  find a text = Some start -> rfind b text = Some stop -> start < stop ->
  exists pre snippet post,
    take (stop + 1 - start) (drop start text) = snippet
    /\ text = pre ++ snippet ++ post
    /\ contains a pre = false /\ contains b post = false
    /\ head snippet = Some a /\ last_char snippet = Some b.
Proof.
  intros Hf Hr Hlt.
  destruct (find_drop a text start Hf) as [r1 [Hd1 Hpre]].
  destruct (rfind_drop b text stop Hr) as [r2 [Hd2 Hpost]].
  set (u := drop start text) in *.
  assert (Hk : drop (stop - start) u = String b r2).
  { unfold u. rewrite drop_drop.
    replace (stop - start + start) with stop by lia. exact Hd2. }
  replace (stop + 1 - start) with (S (stop - start)) by lia.
  exists (take start text), (take (S (stop - start)) u), r2.
  repeat split.
  - rewrite <- (drop_succ _ _ _ _ Hk), take_drop. unfold u.
    now rewrite take_drop.
  - exact Hpre.
  - exact Hpost.
  - rewrite Hd1. reflexivity.
  - rewrite (take_succ_drop _ _ _ _ Hk). apply last_char_snoc.
Qed.

(** X5.  What [safe_extract_json] returns is an object that [json.loads]
    decoded, either from the whole, non-empty text or from its slice that
    starts at the first opening brace and ends at the last closing
    brace. *)
Theorem safe_extract_json_sound (X : host) (text : string) (d : dict json) :
  safe_extract_json X text = Some d ->
  text <> ""
  /\ (json_loads X text = Some (JDict d)
      \/ exists pre snippet post,
          text = pre ++ snippet ++ post
          /\ contains "{" pre = false /\ contains "}" post = false
          /\ head snippet = Some "{"%char /\ last_char snippet = Some "}"%char
          /\ json_loads X snippet = Some (JDict d)).
Proof.
  unfold safe_extract_json. destruct text as [|c0 t0]; [discriminate|].
  cbn [is_empty]. set (text := String c0 t0). intro H.
  split; [discriminate|].
  assert (Hsnip :
            match find "{" text, rfind "}" text with
            | Some start, Some stop =>
                if (start <? stop)%nat then
                  match json_loads X (take (stop + 1 - start) (drop start text))
                  with
                  | Some (JDict d0) => Some d0
                  | _ => None
                  end
                else None
            | _, _ => None
            end = Some d ->
            exists pre snippet post,
              text = pre ++ snippet ++ post
              /\ contains "{" pre = false /\ contains "}" post = false
              /\ head snippet = Some "{"%char
              /\ last_char snippet = Some "}"%char
              /\ json_loads X snippet = Some (JDict d)).
  { destruct (find "{" text) as [start|] eqn:Hf; [|discriminate].
    destruct (rfind "}" text) as [stop|] eqn:Hr; [|discriminate].
    destruct (Nat.ltb_spec start stop) as [Hlt|]; [|discriminate].
    destruct (brace_snippet text start stop "{" "}" Hf Hr Hlt)
      as [pre [snippet [post [Hs [Ht [Hp [Hq [Hh Hl]]]]]]]].
    rewrite Hs. intro Hj.
    exists pre, snippet, post. repeat split; try assumption.
    destruct (json_loads X snippet) as [[]|]; try discriminate Hj.
    now injection Hj as ->. }
  destruct (json_loads X text) as [v|] eqn:Hj.
  - destruct v; try (right; exact (Hsnip H)).
    left. now injection H as ->.
  - right. exact (Hsnip H).
Qed.

Lemma safe_extract_json_sound_witness :
  Scenario.reply_list <> "".
Proof.
  apply (safe_extract_json_sound
           Scenario.scoring_down Scenario.reply_list
           [("Python", JList [JStr "What is a list?"; JStr " "])]).
  reflexivity.
Defined.

(** X6.  When the whole text does not decode to an object and the text
    lacks an opening or a closing brace, [safe_extract_json] returns
    [None]. *)
Theorem safe_extract_json_needs_braces (X : host) (text : string) :
  (forall d, json_loads X text <> Some (JDict d)) ->
  contains "{" text = false \/ contains "}" text = false ->
  safe_extract_json X text = None.
Proof.
  intros Hj Hb. unfold safe_extract_json.
  destruct (is_empty text); [reflexivity|].
  assert (E : match find "{" text, rfind "}" text with
              | Some start, Some stop =>
                  if (start <? stop)%nat then
                    match json_loads X (take (stop + 1 - start)
                                             (drop start text)) with
                    | Some (JDict d0) => Some d0
                    | _ => None
                    end
                  else None
              | _, _ => None
              end = None).
  { destruct Hb as [Hb | Hb].
    - now rewrite (find_none _ _ Hb).
    - rewrite (rfind_none_iff _ _ Hb). now destruct (find "{" text). }
  destruct (json_loads X text) as [v|] eqn:Hv; [|exact E].
  destruct v; try exact E. now contradiction (Hj d).
Qed.

Lemma safe_extract_json_needs_braces_witness :
  safe_extract_json Scenario.scoring_down "no json here" = None.
Proof.
  apply safe_extract_json_needs_braces; [discriminate | left; reflexivity].
Defined.

(** ** Questions, continued *)

Lemma get_default_find {V : Type} (d : dict V) (k : string) (dflt : V) :
  get_default d k dflt
  = match dict_find d k with Some v => v | None => dflt end.
Proof.
  induction d as [|[k0 v0] d IH]; simpl; [reflexivity|].
  now destruct (k0 =? k)%string.
Qed.

Lemma flat_map_nil_iff {A B : Type} (f : A -> list B) (l : list A) :
  flat_map f l = [] <-> forall x, In x l -> f x = [].
Proof.
  induction l as [|a l IH]; simpl.
  - split; [intros _ x [] | reflexivity].
  - split.
    + intro H. apply app_eq_nil in H as [Ha Hl].
      intros x [<- | Hx]; [exact Ha | now apply IH].
    + intro H. rewrite (H a (or_introl eq_refl)).
      apply IH. intros x Hx. apply H. now right.
Qed.

Lemma flat_map_agree {A B : Type} (f g : A -> list B) (l : list A) :
  (forall x, In x l -> f x = g x) -> flat_map f l = flat_map g l.
Proof.
  induction l as [|a l IH]; intro H; [reflexivity|].
  simpl. rewrite (H a (or_introl eq_refl)). f_equal. apply IH.
  intros x Hx. apply H. now right.
Qed.

Lemma existsb_eqb_In (t : string) (l : list string) :
  existsb (String.eqb t) l = true <-> In t l.
Proof.
  rewrite existsb_exists. split.
  - intros [x [Hx He]]. apply String.eqb_eq in He. now subst.
  - intro H. exists t. split; [exact H | apply String.eqb_refl].
Qed.

Section MoreQuestions.

Variable X : host.

Lemma sanitize_find_all (data : dict json) (techs : list string) (t : string) :
  dict_find (sanitize X data techs) t
  = if existsb (String.eqb t) techs then stored_for X data t else None.
Proof.
  unfold sanitize. rewrite sanitize_fold.
  destruct (existsb (String.eqb t) techs); [|reflexivity].
  now destruct (stored_for X data t).
Qed.

Lemma questions_of (data : dict json) (techs : list string) (t : string) :
  In t techs ->
  get_default (sanitize X data techs) t []
  = match lookup_questions data t with
    | JList qs => sanitize_list X t qs
    | _ => []
    end.
Proof.
  intro Hin. rewrite get_default_find, sanitize_find_all.
  rewrite (proj2 (existsb_eqb_In t techs) Hin). unfold stored_for.
  now destruct (lookup_questions data t).
Qed.

End MoreQuestions.

(** X7.  The mapping built by the loop of [llm_generate_questions] has no
    key outside the requested techs, whatever keys the reply has. *)
Theorem sanitize_keys_among_techs
        (X : host) (data : dict json) (techs : list string) (t : string) :
  ~ In t techs -> dict_find (sanitize X data techs) t = None.
Proof.
  intro Hn. rewrite sanitize_find_all.
  destruct (existsb (String.eqb t) techs) eqn:E; [|reflexivity].
  apply existsb_eqb_In in E. contradiction.
Qed.

Lemma sanitize_keys_among_techs_witness :
  dict_find (sanitize Scenario.scoring_down
                      [("Python", JList []); ("Go", JList [])] ["Python"])
            "Go" = None.
Proof.
  apply sanitize_keys_among_techs. simpl. intros [H | []]. discriminate H.
Defined.

Lemma lookup_questions_empty (t : string) :
  lookup_questions [] t = JList [].
Proof. unfold lookup_questions. simpl. now destruct (capitalize t). Qed.

(** X8.  When the request succeeds but no JSON object can be extracted
    from the reply, [llm_generate_questions] maps every requested tech to
    its three fallback questions, and the flattened list is those
    questions, tech by tech. *)
Theorem unparseable_reply_gives_fallbacks
        (X : host) (ts : list string) (w w1 : world) (raw : string) :
  safe_generate X (QuestionsPrompt (join ", " ts)) 3 w = (Ret raw, w1) ->
  safe_extract_json X raw = None ->
  exists qm,
    llm_generate_questions X ts w = (Ret qm, w1)
    /\ (forall t, In t ts -> dict_find qm t = Some (fallback_questions t))
    /\ flatten ts qm
       = flat_map (fun t => map (fun q => (t, q)) (fallback_questions t)) ts.
Proof.
  intros Hgen Hnone. exists (sanitize X (extract_or_empty X raw) ts).
  assert (Hd : extract_or_empty X raw = []).
  { unfold extract_or_empty. now rewrite Hnone. }
  split; [|split].
  - unfold llm_generate_questions, bind. now rewrite Hgen.
  - intros t Hin. rewrite (sanitize_find X _ _ _ Hin), Hd.
    unfold stored_for. now rewrite lookup_questions_empty.
  - unfold flatten. apply flat_map_agree. intros t Hin.
    rewrite (questions_of X _ _ _ Hin), Hd.
    now rewrite lookup_questions_empty.
Qed.

Lemma unparseable_reply_gives_fallbacks_witness :
  exists qm,
    llm_generate_questions
      (Build_host Scenario.loads Scenario.str_of Scenario.int_of
                  (fun _ _ => Some "Sorry, I cannot help."))
      ["Go"] initial_world
    = (Ret qm, mk_world initial_session [] 1 [])
    /\ (forall t, In t ["Go"] -> dict_find qm t = Some (fallback_questions t))
    /\ flatten ["Go"] qm
       = flat_map (fun t => map (fun q => (t, q)) (fallback_questions t))
                  ["Go"].
Proof.
  apply (unparseable_reply_gives_fallbacks _ ["Go"] initial_world _
           "Sorry, I cannot help."); reflexivity.
Defined.

(** X9.  The flattened question list is empty, which is what sends the
    session back to the Tech Stack field, exactly when no requested tech
    has a list as its looked-up value. *)
Theorem flatten_empty_iff_no_list
        (X : host) (data : dict json) (techs : list string) :
  flatten techs (sanitize X data techs) = []
  <-> forall t, In t techs ->
                forall qs, lookup_questions data t <> JList qs.
Proof.
  unfold flatten. rewrite flat_map_nil_iff. split.
  - intros H t Hin qs Hl. specialize (H t Hin).
    rewrite (questions_of X _ _ _ Hin), Hl in H.
    apply map_eq_nil in H.
    pose proof (proj1 (sanitize_list_bounds X t qs)) as Hb.
    rewrite H in Hb. simpl in Hb. lia.
  - intros H t Hin. rewrite (questions_of X _ _ _ Hin).
    destruct (lookup_questions data t) eqn:Hl; try reflexivity.
    now contradiction (H t Hin l).
Qed.

Lemma flatten_empty_iff_no_list_witness :
  flatten ["Python"]
          (sanitize Scenario.string_valued
                    [("Python", JStr "What is a list?")] ["Python"]) = [].
Proof.
  apply (proj2 (flatten_empty_iff_no_list
                  Scenario.string_valued
                  [("Python", JStr "What is a list?")] ["Python"])).
  intros t [<- | []] qs. vm_compute. discriminate.
Defined.

Lemma flatten_sub_bounds (X : host) (data : dict json) (techs l : list string) :
  (forall t, In t l -> In t techs) ->
  (forall t, In t techs -> exists qs, lookup_questions data t = JList qs) ->
  3 * List.length l
  <= List.length
       (flat_map (fun t => map (fun q => (t, q))
                               (get_default (sanitize X data techs) t [])) l)
  <= 5 * List.length l.
Proof.
  intros Hsub Hall. induction l as [|t l IH]; [simpl; lia|].
  cbn [flat_map]. rewrite length_app, length_map.
  rewrite (questions_of X _ _ _ (Hsub t (or_introl eq_refl))).
  destruct (Hall t (Hsub t (or_introl eq_refl))) as [qs ->].
  pose proof (proj1 (sanitize_list_bounds X t qs)) as Hb.
  assert (IH' := IH (fun x Hx => Hsub x (or_intror Hx))).
  simpl List.length. lia.
Qed.

(** X10.  When every requested tech has a list as its looked-up value,
    the flattened question list has between 3 and 5 questions per entry of
    [techs]. *)
Theorem flatten_three_to_five_per_tech
        (X : host) (data : dict json) (techs : list string) :
  (forall t, In t techs -> exists qs, lookup_questions data t = JList qs) ->
  3 * List.length techs
  <= List.length (flatten techs (sanitize X data techs))
  <= 5 * List.length techs.
Proof.
  intro Hall. unfold flatten. apply flatten_sub_bounds; auto.
Qed.

Lemma flatten_three_to_five_per_tech_witness :
  3 * 2 <= List.length (flatten ["Go"; "Go"]
                                (sanitize Scenario.scoring_down [] ["Go"; "Go"]))
  <= 5 * 2.
Proof.
  apply (flatten_three_to_five_per_tech Scenario.scoring_down [] ["Go"; "Go"]).
  intros t _. exists []. apply lookup_questions_empty.
Defined.

(** ** Question numbers *)

Lemma firstn_app_exact {A : Type} (l1 l2 : list A) (j : nat) :
  firstn (List.length l1 + j) (l1 ++ l2) = (l1 ++ firstn j l2)%list.
Proof.
  induction l1 as [|x l1 IH]; simpl; [reflexivity | now rewrite IH].
Qed.

Lemma In_take {A : Type} (x : A) (n : nat) (l : list A) :
  In x (firstn n l) -> In x l.
Proof.
  revert l. induction n as [|n IH]; intros [|a l] H; simpl in *;
    try contradiction.
  destruct H as [H | H]; [now left | right; now apply IH].
Qed.

Lemma filter_none {A : Type} (f : A -> bool) (l : list A) :
  (forall x, In x l -> f x = false) -> filter f l = [].
Proof.
  induction l as [|x l IH]; intro H; [reflexivity|].
  simpl. rewrite (H x (or_introl eq_refl)). apply IH.
  intros y Hy. apply H. now right.
Qed.

Lemma filter_all {A : Type} (f : A -> bool) (l : list A) :
  (forall x, In x l -> f x = true) -> filter f l = l.
Proof.
  induction l as [|x l IH]; intro H; [reflexivity|].
  simpl. rewrite (H x (or_introl eq_refl)). f_equal. apply IH.
  intros y Hy. apply H. now right.
Qed.

(** X11.  In a question list where the questions of a tech follow
    questions of other techs only, the question at place j of that tech's
    block is found at its position and its number, [count_for_tech], is
    j + 1. *)
Theorem count_for_tech_restarts_per_tech
        (before after : list (string * string)) (t : string)
        (qs : list string) (j : nat) :
  (forall x, In x before -> fst x <> t) ->
  j < List.length qs ->
  let flat := (before ++ map (fun q => (t, q)) qs ++ after)%list in
  nth_error flat (List.length before + j)
  = option_map (fun q => (t, q)) (nth_error qs j)
  /\ count_for_tech flat (List.length before + j) t = S j.
Proof.
  intros Hb Hj flat. subst flat. split.
  - rewrite nth_error_app2 by lia.
    replace (List.length before + j - List.length before) with j by lia.
    rewrite nth_error_app1 by (rewrite length_map; lia).
    apply nth_error_map.
  - unfold count_for_tech. rewrite firstn_app_exact, filter_app.
    rewrite (filter_none _ before).
    + rewrite firstn_app, length_map.
      replace (j - List.length qs) with 0 by lia.
      rewrite firstn_O, app_nil_r. cbn [app].
      rewrite filter_all.
      * rewrite length_firstn, length_map. lia.
      * intros x Hx. apply In_take in Hx.
        apply in_map_iff in Hx as [q [<- _]]. apply String.eqb_refl.
    + intros x Hx. apply String.eqb_neq. now apply Hb.
Qed.

Lemma count_for_tech_restarts_per_tech_witness :
  count_for_tech [("Go", "a"); ("Go", "b"); ("Rust", "c"); ("Rust", "d")] 3
                 "Rust" = 2.
Proof.
  apply (count_for_tech_restarts_per_tech
           [("Go", "a"); ("Go", "b")] [] "Rust" ["c"; "d"] 1).
  - simpl. intros x [<- | [<- | []]]; discriminate.
  - simpl. lia.
Defined.

(** ** Retries *)

Section Retries.

Variable X : host.

Lemma safe_generate_from_first_success (p : prompt) (k : nat) :
  forall remaining i w text,
    k < remaining ->
    (forall j, j < k -> backend X (calls w + j) p = None) ->
    backend X (calls w + k) p = Some text ->
    safe_generate_from X p i remaining w
    = (Ret text,
       mk_world (st w) (file w) (calls w + S k)
                (slept w ++ backoff_delays i k)%list).
Proof.
  induction k as [|k IH]; intros remaining i w text Hlt Hfail Hok;
    (destruct remaining as [|n]; [lia|]); simpl;
    unfold try_except, generate_content.
  - rewrite Nat.add_0_r in Hok. rewrite Hok. unfold set_calls.
    unfold backoff_delays. simpl. rewrite app_nil_r.
    now replace (calls w + 1) with (S (calls w)) by lia.
  - pose proof (Hfail 0 ltac:(lia)) as H0. rewrite Nat.add_0_r in H0.
    rewrite H0. unfold bind, time_sleep. cbn [fst snd].
    rewrite (IH n (S i) _ text); cbn [calls slept st file set_slept set_calls].
    + unfold backoff_delays. simpl. rewrite <- app_assoc. simpl.
      do 2 f_equal. lia.
    + lia.
    + intros j Hj. rewrite <- (Hfail (S j)) by lia. f_equal. lia.
    + rewrite <- Hok. f_equal. lia.
Qed.

Lemma safe_generate_from_exhausted (p : prompt) (remaining : nat) :
  forall i w,
    (forall j, j < remaining -> backend X (calls w + j) p = None) ->
    safe_generate_from X p i remaining w
    = (Raise RuntimeError,
       mk_world (st w) (file w) (calls w + remaining)
                (slept w ++ backoff_delays i remaining)%list).
Proof.
  induction remaining as [|n IH]; intros i w Hfail; simpl.
  - unfold raise, backoff_delays. simpl.
    rewrite app_nil_r, Nat.add_0_r. now destruct w.
  - unfold try_except, generate_content.
    pose proof (Hfail 0 ltac:(lia)) as H0. rewrite Nat.add_0_r in H0.
    rewrite H0. unfold bind, time_sleep. cbn [fst snd].
    rewrite IH; cbn [calls slept st file set_slept set_calls].
    + unfold backoff_delays. simpl. rewrite <- app_assoc. simpl.
      do 2 f_equal. lia.
    + intros j Hj. rewrite <- (Hfail (S j)) by lia. f_equal. lia.
Qed.

End Retries.

(** X12.  [safe_generate] returns the first successful reply: after k
    failed requests and a success, with k below the number of retries, it
    has sent k + 1 requests, slept 1, 2, ..., 2^(k-1) and left session and
    file untouched. *)
Theorem safe_generate_stops_at_first_success
        (X : host) (p : prompt) (retries k : nat) (w : world) (text : string) :
  k < retries ->
  (forall j, j < k -> backend X (calls w + j) p = None) ->
  backend X (calls w + k) p = Some text ->
  safe_generate X p retries w
  = (Ret text,
     mk_world (st w) (file w) (calls w + S k)
              (slept w ++ backoff_delays 0 k)%list).
Proof. apply safe_generate_from_first_success. Qed.

Lemma safe_generate_stops_at_first_success_witness :
  safe_generate Scenario.flaky (QuestionsPrompt "Go") 3 initial_world
  = (Ret "ok", mk_world initial_session [] 3 [1; 2]%N).
Proof.
  apply (safe_generate_stops_at_first_success
           Scenario.flaky (QuestionsPrompt "Go") 3 2 initial_world "ok").
  - lia.
  - intros j Hj. simpl. destruct j as [|[|j]]; [reflexivity | reflexivity | lia].
  - reflexivity.
Defined.

(** X13.  When all its requests fail, [safe_generate] raises
    [RuntimeError] after exactly [retries] requests, having slept after
    every failure, the last one included: 1, 2, ..., 2^(retries-1). *)
Theorem safe_generate_exhausts_retries
        (X : host) (p : prompt) (retries : nat) (w : world) :
  (forall j, j < retries -> backend X (calls w + j) p = None) ->
  safe_generate X p retries w
  = (Raise RuntimeError,
     mk_world (st w) (file w) (calls w + retries)
              (slept w ++ backoff_delays 0 retries)%list).
Proof. apply safe_generate_from_exhausted. Qed.

Lemma safe_generate_exhausts_retries_witness :
  safe_generate Scenario.failing (QuestionsPrompt "Go") 3 initial_world
  = (Raise RuntimeError, mk_world initial_session [] 3 [1; 2; 4]%N).
Proof.
  apply (safe_generate_exhausts_retries
           Scenario.failing (QuestionsPrompt "Go") 3 initial_world).
  intros j _. reflexivity.
Defined.

(** X14.  [llm_score_answer] raises exactly when its two requests both
    fail. *)
Theorem llm_score_answer_fails_iff_two_failures
        (X : host) (q a : string) (w : world) :
  (exists e, fst (llm_score_answer X q a w) = Raise e)
  <-> backend X (calls w) (ScorePrompt q a) = None
      /\ backend X (S (calls w)) (ScorePrompt q a) = None.
Proof.
  unfold llm_score_answer, bind. split.
  - intros [e He].
    destruct (backend X (calls w) (ScorePrompt q a)) as [t0|] eqn:H0.
    + unfold safe_generate in He.
      rewrite (safe_generate_from_first_success X _ 0 2 0 w t0) in He;
        [discriminate He | lia | intros j Hj; lia
        | now rewrite Nat.add_0_r].
    + split; [reflexivity|].
      destruct (backend X (S (calls w)) (ScorePrompt q a)) as [t1|] eqn:H1;
        [|reflexivity].
      unfold safe_generate in He.
      rewrite (safe_generate_from_first_success X _ 1 2 0 w t1) in He;
        [discriminate He | lia | | now rewrite Nat.add_1_r].
      intros j Hj. replace j with 0 by lia. now rewrite Nat.add_0_r.
  - intros [H0 H1]. exists RuntimeError.
    unfold safe_generate.
    rewrite safe_generate_from_exhausted; [reflexivity|].
    intros j Hj. destruct j as [|[|j]]; [| |lia].
    + now rewrite Nat.add_0_r.
    + now rewrite Nat.add_1_r.
Qed.

Lemma llm_score_answer_fails_iff_two_failures_witness :
  exists e,
    fst (llm_score_answer Scenario.failing "What is a list?" "A sequence."
                          initial_world) = Raise e.
Proof.
  apply (proj2 (llm_score_answer_fails_iff_two_failures
                  Scenario.failing "What is a list?" "A sequence."
                  initial_world)).
  split; reflexivity.
Defined.

(** X15.  When its request succeeds, [llm_score_answer] returns
    normally whatever the reply is: the feedback is the reply's "feedback"
    entry, the score is absent when the "score" entry is missing or null,
    and both are absent when no JSON object can be extracted. *)
Theorem llm_score_answer_tolerates_any_reply
        (X : host) (q a : string) (w w1 : world) (raw : string) :
  safe_generate X (ScorePrompt q a) 2 w = (Ret raw, w1) ->
  exists score,
    llm_score_answer X q a w
    = (Ret (score, dict_get (extract_or_empty X raw) "feedback"), w1)
    /\ (dict_get (extract_or_empty X raw) "score" = JNull -> score = None)
    /\ (safe_extract_json X raw = None ->
        score = None
        /\ dict_get (extract_or_empty X raw) "feedback" = JNull).
Proof.
  intro Hgen. unfold llm_score_answer, bind. rewrite Hgen. cbn [ret].
  eexists. split; [reflexivity|]. split.
  - now intros ->.
  - intro Hn. unfold extract_or_empty. rewrite Hn. now split.
Qed.

Lemma llm_score_answer_tolerates_any_reply_witness :
  exists score,
    llm_score_answer Scenario.string_valued "What is a list?" "A sequence."
                     initial_world
    = (Ret (score,
            dict_get (extract_or_empty Scenario.string_valued
                                       Scenario.reply_string) "feedback"),
       mk_world initial_session [] 1 [])
    /\ (dict_get (extract_or_empty Scenario.string_valued
                                   Scenario.reply_string) "score" = JNull ->
        score = None)
    /\ (safe_extract_json Scenario.string_valued Scenario.reply_string = None ->
        score = None
        /\ dict_get (extract_or_empty Scenario.string_valued
                                      Scenario.reply_string) "feedback"
           = JNull).
Proof.
  apply (llm_score_answer_tolerates_any_reply
           Scenario.string_valued "What is a list?" "A sequence."
           initial_world).
  reflexivity.
Defined.

(** ** Validation, continued *)

(** X16.  A refused field value changes nothing: when
    [validate_and_store] returns a corrective message, session, file and
    counters are as before. *)
Theorem validation_failure_changes_nothing
        (field user_text : string) (w w' : world) (e : said) :
  validate_and_store field user_text w = (Ret (Some e), w') -> w' = w.
Proof.
  unfold validate_and_store, store.
  repeat match goal with
         | |- context [if ?b then _ else _] => destruct b
         | |- context [match tech_list_from_input ?u with _ => _ end] =>
             destruct (tech_list_from_input u)
         end;
    steps; intro H; first [discriminate H | now injection H as _ <-].
Qed.

Lemma validation_failure_changes_nothing_witness :
  snd (validate_and_store "Email Address" "jdoe at example" initial_world)
  = initial_world.
Proof.
  apply (validation_failure_changes_nothing
           "Email Address" "jdoe at example" initial_world _ InvalidEmail).
  reflexivity.
Defined.

Lemma set_same_techs (C : dict (option string)) (w : world) :
  set_st (set_candidate C (st w)) w
  = set_st (set_techs (techs (st w)) (set_candidate C (st w))) w.
Proof. destruct w as [s f c sl]. now destruct s. Qed.

Lemma validate_and_store_effect (f t : string) (w : world) :
  In f FIELDS ->
  exists o w',
    validate_and_store f t w = (Ret o, w')
    /\ match o with
       | Some _ => w' = w
       | None =>
           exists value T,
             w' = set_st (set_techs T
                            (set_candidate
                               (dict_set (candidate (st w)) f (Some value))
                               (st w))) w
             /\ (f = "Tech Stack" ->
                 T = tech_list_from_input (strip t) /\ T <> [])
             /\ (f <> "Tech Stack" -> T = techs (st w))
       end.
Proof.
  intro Hin. simpl in Hin.
  repeat (destruct Hin as [<- | Hin]); [..|contradiction];
    unfold validate_and_store, store;
    cbn [String.eqb Ascii.eqb Bool.eqb];
    repeat match goal with
           | |- context [if ?b then _ else _] => destruct b
           | |- context [match tech_list_from_input ?u with _ => _ end] =>
               destruct (tech_list_from_input u) eqn:?
           end;
    steps;
    first
      [ exists (Some NeedFirstAndLastName), w; now split
      | exists (Some InvalidEmail), w; now split
      | exists (Some InvalidPhone), w; now split
      | exists (Some NumbersOnly), w; now split
      | exists (Some PositionTooShort), w; now split
      | exists (Some InvalidLocation), w; now split
      | exists (Some TechStackNotUnderstood), w; now split
      | eexists None, _; split; [reflexivity|];
        eexists _, _; split; [apply set_same_techs|];
        split; [discriminate | reflexivity]
      | eexists None, _; split; [reflexivity|];
        eexists _, _; split; [reflexivity|];
        split; [intros _; split; [reflexivity | discriminate]
               | intro H; now contradiction H] ].
Qed.

(** ** What a run keeps *)

Lemma parse_1_to_10_range (s : string) (n : Z) :
  parse_1_to_10 s = Some n -> (1 <= n <= 10)%Z.
Proof.
  rewrite parse_1_to_10_search.
  destruct (search None s) as [g|] eqn:Hg; [|discriminate].
  intro H. injection H as <-.
  destruct (search_sound s None g Hg) as [pre [post [_ [Hin _]]]].
  apply (token_value g), Hin.
Qed.

Lemma keys_dict_set {V : Type} (d : dict V) (k : string) (v : V) :
  In k (map fst d) -> map fst (dict_set d k v) = map fst d.
Proof.
  induction d as [|[k0 v0] d IH]; simpl; [contradiction|].
  intro H. destruct (String.eqb_spec k0 k) as [->|Hne]; [reflexivity|].
  simpl. f_equal. apply IH. destruct H as [H | H]; [contradiction | exact H].
Qed.

Lemma Forall_dict_set {V : Type} (P : string * V -> Prop) (d : dict V)
      (k : string) (v : V) :
  (forall k', P (k', v)) -> Forall P d -> Forall P (dict_set d k v).
Proof.
  intros Hv H. induction H as [|[k0 v0] d H0 Hd IH]; simpl.
  - constructor; [apply Hv | constructor].
  - destruct (k0 =? k)%string; constructor; auto.
Qed.

Lemma firstn_succ_nth {A : Type} (l : list A) (n : nat) (x : A) :
  nth_error l n = Some x -> firstn (S n) l = (firstn n l ++ [x])%list.
Proof.
  revert n. induction l as [|a l IH]; intros [|n] H; simpl in *;
    try discriminate H.
  - now injection H as ->.
  - now rewrite (IH n H).
Qed.

Section Unchanged.

Variable X : host.

Lemma safe_generate_from_file (p : prompt) (remaining : nat) :
  forall i w, file (snd (safe_generate_from X p i remaining w)) = file w.
Proof.
  induction remaining as [|n IH]; intros i w; simpl; [reflexivity|].
  unfold try_except, generate_content.
  destruct (backend X (calls w) p); [reflexivity|].
  unfold bind, time_sleep. cbn [fst snd]. now rewrite IH.
Qed.

Lemma llm_final_summary_file info rt ans (w : world) :
  file (snd (llm_final_summary X info rt ans w)) = file w.
Proof.
  unfold llm_final_summary, bind, safe_generate.
  pose proof (safe_generate_from_file (SummaryPrompt info rt ans) 2 0 w) as H.
  now destruct (safe_generate_from X _ 0 2 w) as [[raw|e|] w1].
Qed.

Lemma llm_score_answer_file (q a : string) (w : world) :
  file (snd (llm_score_answer X q a w)) = file w.
Proof.
  unfold llm_score_answer, bind, safe_generate.
  pose proof (safe_generate_from_file (ScorePrompt q a) 2 0 w) as H.
  now destruct (safe_generate_from X _ 0 2 w) as [[raw|e|] w1].
Qed.

Lemma llm_generate_questions_file (ts : list string) (w : world) :
  file (snd (llm_generate_questions X ts w)) = file w.
Proof.
  unfold llm_generate_questions, bind, safe_generate.
  pose proof (safe_generate_from_file (QuestionsPrompt (join ", " ts)) 3 0 w)
    as H.
  now destruct (safe_generate_from X _ 0 3 w) as [[raw|e|] w1].
Qed.

(** The end of [handle_tech_q] once the last answer is recorded, in full. *)
Lemma summarizing_effect (w : world) :
  exists final w',
    (update (set_step Summary);;
     say PreparingSummary;;
     s <- get_session;;
     final <- try_except
                (llm_final_summary X (candidate s) (ratings s) (answers s))
                (ret summary_unavailable);;
     update (set_final_summary (Some final));;
     say (SummaryText final);;
     say Closing;;
     s <- get_session;;
     (if consent s
      then save_simulated
             (mk_snapshot (candidate s) (ratings s) (answers s) (Some final))
      else ret tt);;
     update (set_step Done)) w
    = (Ret tt, w')
    /\ st w'
       = set_step Done
           (set_history
              (((history (st w) ++ [Assistant PreparingSummary])
                  ++ [Assistant (SummaryText final)])
                 ++ [Assistant Closing])%list
              (set_final_summary (Some final) (st w)))
    /\ file w'
       = if consent (st w)
         then (file w ++ [mk_snapshot (candidate (st w)) (ratings (st w))
                                      (answers (st w)) (Some final)])%list
         else file w.
Proof.
  steps. unfold bind at 1, try_except.
  rewrite (blind_at _ _ w (blind_llm_final_summary X _ _ _)).
  pose proof (llm_final_summary_no_halt X
                (candidate (st w)) (ratings (st w)) (answers (st w)) w) as Hnh.
  pose proof (llm_final_summary_file
                (candidate (st w)) (ratings (st w)) (answers (st w)) w) as Hfile.
  destruct (llm_final_summary X _ _ _ w) as [[final|e|] w1];
    [| |now contradiction Hnh];
    cbn [fst snd ret] in *; steps;
    (destruct (consent (st w)); steps; eexists; eexists;
     (split; [reflexivity|]); fields; rewrite Hfile; split; reflexivity).
Qed.

End Unchanged.

Lemma techs_after_validation (f t : string) (T : list string) (w : world) :
  (f = "Tech Stack" -> T = tech_list_from_input (strip t) /\ T <> []) ->
  (f <> "Tech Stack" -> T = techs (st w)) ->
  List.length (techs (st w)) <= 10 ->
  List.length T <= 10.
Proof.
  intros Hy Hn Hb. destruct (String.eqb_spec f "Tech Stack") as [E|E].
  - destruct (Hy E) as [-> _]. apply tech_list_from_input_bounds.
  - now rewrite (Hn E).
Qed.

Lemma last_field (i : nat) (f : string) :
  nth_error FIELDS i = Some f -> i < List.length FIELDS ->
  List.length FIELDS <= S i -> f = "Tech Stack".
Proof.
  intros Hf Hlt Hge. simpl in Hlt, Hge.
  assert (i = 6) as -> by lia. simpl in Hf. now injection Hf.
Qed.

Lemma handle_fields_ok (w : world) (msg : string) :
  step (st w) = Fields ->
  field_index (st w) < List.length FIELDS ->
  session_ok (st w) ->
  keeps_ok w (snd (handle_fields msg w)).
Proof.
  intros Hstep Hlt (Hk & Ht & Hr & Ha & Hs & Hc). rewrite Hstep in Hs.
  destruct (nth_error FIELDS (field_index (st w))) as [f|] eqn:Hf;
    [|apply nth_error_None in Hf; lia].
  pose proof (nth_error_In _ _ Hf) as Hin.
  destruct (validate_and_store_effect f msg w Hin) as [o [w1 [Hv Heff]]].
  single (handle_fields msg w).
  unfold handle_fields. steps. rewrite Hf. unfold bind at 1. rewrite Hv.
  destruct o as [e|].
  - subst w1. done_running.
    unfold keeps_ok, session_ok, ratings_cover, answered_questions. fields.
    rewrite Hstep. auto 10.
  - destruct Heff as [value [T [-> [Hy Hn]]]]. steps.
    assert (HT : List.length T <= 10)
      by exact (techs_after_validation f msg T w Hy Hn Ht).
    assert (HK : map fst (dict_set (candidate (st w)) f (Some value)) = FIELDS)
      by (rewrite keys_dict_set; [exact Hk | now rewrite Hk]).
    destruct (Nat.ltb_spec (S (field_index (st w))) (List.length FIELDS))
      as [Hnext | Hlast].
    + unfold ask_next_field. steps.
      destruct (nth_error FIELDS (S (field_index (st w)))); steps;
        done_running; unfold keeps_ok, session_ok, ratings_cover, answered_questions;
        fields; rewrite Hstep; auto 10.
    + destruct (Hy (last_field _ _ Hf Hlt Hlast)) as [_ HTne].
      steps. destruct T as [|t0 T']; [contradiction|].
      steps. done_running.
      unfold keeps_ok, session_ok, ratings_cover, answered_questions.
      fields. repeat split; auto. intros; lia.
Qed.

Section RunKeeps.

Variable X : host.

Lemma cover_next {V : Type} (ts : list string) (rt : dict V) (idx : nat)
      (t : string) (val : V) :
  (forall j t0, j < idx -> nth_error ts j = Some t0 ->
                dict_find rt t0 <> None) ->
  nth_error ts idx = Some t ->
  forall j t0, j < S idx -> nth_error ts j = Some t0 ->
               dict_find (dict_set rt t val) t0 <> None.
Proof.
  intros Hc Ht j t0 Hj Hn. rewrite dict_find_set.
  destruct (String.eqb_spec t t0) as [->|Hne]; [discriminate|].
  apply (Hc j t0); [|exact Hn].
  assert (j <> idx) by (intros ->; congruence). lia.
Qed.

Lemma cover_all {V : Type} (ts : list string) (rt : dict V) (n : nat) :
  (forall j t0, j < n -> nth_error ts j = Some t0 ->
                dict_find rt t0 <> None) ->
  nth_error ts n = None ->
  forall t0, In t0 ts -> dict_find rt t0 <> None.
Proof.
  intros Hc Hn t0 Hin. apply In_nth_error in Hin as [j Hj].
  apply (Hc j t0); [|exact Hj].
  apply nth_error_None in Hn.
  assert (j < List.length ts) by (apply nth_error_Some; congruence). lia.
Qed.

Lemma handle_ratings_ok (w : world) (msg : string) :
  step (st w) = Ratings ->
  session_ok (st w) ->
  keeps_ok w (snd (handle_ratings X msg w)).
Proof.
  intros Hstep (Hk & Ht & Hr & Ha & Hs & Hc).
  unfold ratings_cover in Hc. rewrite Hstep in Hs, Hc.
  destruct Hs as [Hq Hne]. rewrite Hq in Ha.
  single (handle_ratings X msg w).
  unfold handle_ratings. steps.
  set (idx := match rating_idx (st w) with Some i => i | None => 0 end) in *.
  destruct (nth_error (techs (st w)) idx) as [t|] eqn:Hcur.
  2: { done_running.
       unfold keeps_ok, session_ok, ratings_cover, answered_questions.
       fields. rewrite Hstep, Hq. auto 10. }
  destruct (parse_1_to_10 msg) as [val|] eqn:Hval.
  2: { unfold say, update. done_running.
       unfold keeps_ok, session_ok, ratings_cover, answered_questions.
       fields. rewrite Hstep, Hq. auto 10. }
  assert (Hr' : Forall (fun kv => (1 <= snd kv <= 10)%Z)
                       (dict_set (ratings (st w)) t val)).
  { apply Forall_dict_set; [|exact Hr].
    intros k'. exact (parse_1_to_10_range msg val Hval). }
  pose proof (cover_next _ _ idx t val Hc Hcur) as Hc'.
  steps.
  destruct (nth_error (techs (st w)) (S idx)) as [t'|] eqn:Hnext.
  { unfold say, update. done_running.
    unfold keeps_ok, session_ok, ratings_cover, answered_questions.
    fields. rewrite Hstep, Hq. auto 10. }
  pose proof (cover_all _ _ _ Hc' Hnext) as Hall.
  steps. unfold bind at 1.
  rewrite (blind_at _ _ w (blind_llm_generate_questions X _)).
  pose proof (llm_generate_questions_file X (techs (st w)) w) as Hfile.
  destruct (llm_generate_questions X (techs (st w)) w) as [[qm|e|] w1];
    cbn [fst snd] in *.
  2, 3: done_running;
    unfold keeps_ok, session_ok, ratings_cover, answered_questions;
    fields; rewrite Hstep, Hq; now auto 10.
  steps. destruct (flatten (techs (st w)) qm) as [|first rest].
  - steps. cbn [list_index FIELDS String.eqb Ascii.eqb Bool.eqb].
    steps. done_running.
    unfold keeps_ok, session_ok, ratings_cover, answered_questions.
    fields. auto 10.
  - unfold say, update. done_running.
    unfold keeps_ok, session_ok, ratings_cover, answered_questions. fields.
    repeat split; auto. simpl. lia.
Qed.

Lemma handle_tech_q_ok (w : world) (msg : string) :
  step (st w) = TechQ ->
  session_ok (st w) ->
  keeps_ok w (snd (handle_tech_q X msg w)).
Proof.
  intros Hstep (Hk & Ht & Hr & Ha & Hs & Hcov).
  unfold ratings_cover in Hcov. rewrite Hstep in Hs, Hcov.
  unfold answered_questions in Ha.
  single (handle_tech_q X msg w).
  unfold handle_tech_q. steps.
  destruct (nth_error (flat_questions (st w)) (q_ptr (st w)))
    as [current|] eqn:Hcur;
    [|apply nth_error_None in Hcur; lia].
  unfold bind at 1. unfold try_except.
  pose proof (llm_score_answer_no_halt X (snd current) (strip msg) w) as Hnh.
  pose proof (blind_st (llm_score_answer X (snd current) (strip msg)) w
                       (blind_llm_score_answer X _ _)) as Hst.
  pose proof (llm_score_answer_file X (snd current) (strip msg) w) as Hfile.
  assert (Hanswered :
            forall sc fb,
              map (fun a => (a_tech a, a_question a))
                  (answers (st w)
                     ++ [mk_answer (fst current) (snd current) (strip msg)
                                   sc fb])%list
              = firstn (S (q_ptr (st w))) (flat_questions (st w))).
  { intros sc fb. rewrite map_app, Ha, (firstn_succ_nth _ _ _ Hcur).
    simpl. now destruct current. }
  destruct (llm_score_answer X (snd current) (strip msg) w) as [[sp|e|] w1];
    [| |now contradiction Hnh].
  all: cbn [fst snd ret] in *; steps; rewrite ?Hst;
    destruct (nth_error (flat_questions (st w)) (S (q_ptr (st w))))
      as [next_q|] eqn:Hnext;
    [ unfold say, update; done_running;
      unfold keeps_ok, session_ok, ratings_cover, answered_questions; fields;
      rewrite ?Hst, Hstep, Hanswered, Hfile;
      assert (S (q_ptr (st w)) < List.length (flat_questions (st w)))
        by (apply nth_error_Some; congruence);
      auto 10
    | apply nth_error_None in Hnext;
      match goal with
      | |- context [bind (update (set_step Summary)) ?k ?w0] =>
          destruct (summarizing_effect X w0)
            as [final [w' [Hrun [Hs' Hf']]]];
          replace (bind (update (set_step Summary)) k w0) with (Ret tt, w')
            by (symmetry; exact Hrun)
      end;
      done_running; unfold keeps_ok, session_ok, ratings_cover, answered_questions;
      rewrite Hs', Hf'; fields; rewrite ?Hst, Hanswered, Hfile;
      repeat split; auto; try lia; try discriminate;
      intro Hc; now rewrite Hc ].
Qed.

End RunKeeps.

Lemma handle_user_input_ok (X : host) (w : world) (msg : string) :
  index_in_phase (st w) ->
  session_ok (st w) ->
  keeps_ok w (snd (handle_user_input X msg w)).
Proof.
  intros Hidx Hok.
  destruct (is_empty msg) eqn:Hne.
  { unfold handle_user_input. rewrite Hne. cbn [ret snd].
    unfold keeps_ok. auto. }
  destruct (is_end_message msg) eqn:Hend.
  { rewrite (handle_end_message X w msg Hend). cbn [snd].
    unfold keeps_ok, session_ok, ratings_cover, answered_questions in *. fields.
    repeat split; try tauto. now intros ->. }
  single (handle_user_input X msg w).
  unfold handle_user_input. rewrite Hne, Hend. steps.
  unfold dispatch. steps. subst Q. cbv beta.
  assert (Hok' : session_ok
                   (set_history (history (st w) ++ [User msg])%list (st w))).
  { unfold session_ok, ratings_cover, answered_questions in *. fields. exact Hok. }
  unfold index_in_phase in Hidx.
  destruct (step (st w)) eqn:Hstep; try contradiction.
  - match goal with
    | |- context [handle_fields msg ?w0] =>
        destruct (handle_fields_ok w0 msg) as (H1 & H2 & H3);
          [exact Hstep | exact Hidx | exact Hok' |]
    end.
    unfold keeps_ok. fields. auto.
  - match goal with
    | |- context [handle_ratings X msg ?w0] =>
        destruct (handle_ratings_ok X w0 msg) as (H1 & H2 & H3);
          [exact Hstep | exact Hok' |]
    end.
    unfold keeps_ok. fields. auto.
  - match goal with
    | |- context [handle_tech_q X msg ?w0] =>
        destruct (handle_tech_q_ok X w0 msg) as (H1 & H2 & H3);
          [exact Hstep | exact Hok' |]
    end.
    unfold keeps_ok. fields. auto.
  - destruct Hok as (_ & _ & _ & _ & Hs & _). now rewrite Hstep in Hs.
  - unfold say, update. cbn [snd].
    unfold keeps_ok, session_ok, ratings_cover, answered_questions in *. fields.
    rewrite Hstep in *. repeat split; tauto.
Qed.

Lemma script_run_ok (X : host) (cb : bool) (input : option string)
      (w : world) :
  index_in_phase (st w) ->
  session_ok (st w) ->
  session_ok (st (snd (script_run X cb input w)))
  /\ (cb = false -> file (snd (script_run X cb input w)) = file w).
Proof.
  intros Hidx Hok.
  assert (Hok0 : session_ok (set_consent cb (st w))).
  { unfold session_ok, ratings_cover, answered_questions in *. fields. exact Hok. }
  destruct input as [msg|].
  - rewrite script_run_after_greeting by now apply index_in_phase_not_greet.
    destruct (handle_user_input_ok X (set_st (set_consent cb (st w)) w) msg)
      as (H1 & _ & H3); [exact Hidx | exact Hok0 |].
    split; [exact H1|]. intros ->. now apply H3.
  - unfold script_run. steps. unfold bind.
    rewrite greet_block_after_greeting
      by (fields; now apply index_in_phase_not_greet).
    cbn [snd]. fields. split; [exact Hok0 | reflexivity].
Qed.

Lemma reachable_session_ok (X : host) (w : world) :
  reachable X w -> session_ok (st w).
Proof.
  induction 1 as [cb | w cb input Hw IH | w cb Hw IH].
  - unfold session_ok, ratings_cover, answered_questions. vm_compute.
    repeat split; try constructor; lia.
  - exact (proj1 (script_run_ok X cb input w
                    (reachable_index_in_phase X w Hw) IH)).
  - unfold erase_session_data, session_ok, ratings_cover, answered_questions. vm_compute.
    repeat split; try constructor; lia.
Qed.

(** Reachability of the example worlds, run by run. *)
Tactic Notation "reach_example" integer(n) :=
  unfold Scenario.question_awaited, Scenario.rating_awaited,
    Scenario.seven_fields, Scenario.opened;
  cbn [run_all]; do n apply reach_run; exact (reach_first _ true).

(** X17.  In every reachable world the candidate record has exactly the
    seven field names as keys, in the order of [FIELDS]. *)
Theorem candidate_keeps_its_seven_keys (X : host) (w : world) :
  reachable X w -> map fst (candidate (st w)) = FIELDS.
Proof. intro H. apply (reachable_session_ok X w H). Qed.

Lemma candidate_keeps_its_seven_keys_witness :
  map fst (candidate (st (Scenario.question_awaited Scenario.scoring_down)))
  = FIELDS.
Proof.
  apply (candidate_keeps_its_seven_keys Scenario.scoring_down).
  reach_example 8.
Defined.

(** X18.  In every reachable world every recorded rating is between 1
    and 10. *)
Theorem ratings_stay_in_range (X : host) (w : world) :
  reachable X w ->
  Forall (fun kv => (1 <= snd kv <= 10)%Z) (ratings (st w)).
Proof. intro H. apply (reachable_session_ok X w H). Qed.

Lemma ratings_stay_in_range_witness :
  Forall (fun kv => (1 <= snd kv <= 10)%Z)
         (ratings (st (Scenario.question_awaited Scenario.scoring_down))).
Proof.
  apply (ratings_stay_in_range Scenario.scoring_down). reach_example 8.
Defined.

(** X19.  In every reachable world the answers recorded so far carry,
    in order, the tech and text of the first [q_ptr] questions; there are
    [q_ptr] of them, never more than there are questions, and as many as
    there are questions once the session is done. *)
Theorem answers_follow_the_questions (X : host) (w : world) :
  reachable X w ->
  answered_questions (st w) = firstn (q_ptr (st w)) (flat_questions (st w))
  /\ List.length (answers (st w)) = q_ptr (st w)
  /\ q_ptr (st w) <= List.length (flat_questions (st w))
  /\ (step (st w) = Done ->
      List.length (answers (st w)) = List.length (flat_questions (st w))).
Proof.
  intro H. destruct (reachable_session_ok X w H) as (_ & _ & _ & Ha & Hs & _).
  assert (Hle : q_ptr (st w) <= List.length (flat_questions (st w))).
  { destruct (step (st w)); try contradiction; lia. }
  assert (Hlen : List.length (answers (st w)) = q_ptr (st w)).
  { unfold answered_questions in Ha.
    rewrite <- (length_map (fun a => (a_tech a, a_question a))), Ha.
    rewrite length_firstn. lia. }
  repeat split; try assumption.
  intro Hd. rewrite Hd in Hs. lia.
Qed.

Lemma answers_follow_the_questions_witness :
  let w := run_all Scenario.scoring_down true ["It is a sequence."; "Scope."]
                   (Scenario.question_awaited Scenario.scoring_down) in
  answered_questions (st w) = firstn (q_ptr (st w)) (flat_questions (st w))
  /\ List.length (answers (st w)) = q_ptr (st w)
  /\ q_ptr (st w) <= List.length (flat_questions (st w))
  /\ (step (st w) = Done ->
      List.length (answers (st w)) = List.length (flat_questions (st w))).
Proof.
  apply (answers_follow_the_questions Scenario.scoring_down).
  reach_example 10.
Defined.



(** X21.  A run made with the consent box unticked leaves the saved
    file as it was, whatever the message and the phase. *)
Theorem nothing_saved_without_consent
        (X : host) (w : world) (input : option string) :
  reachable X w ->
  file (snd (script_run X false input w)) = file w.
Proof.
  intro H.
  apply (script_run_ok X false input w
                       (reachable_index_in_phase X w H)
                       (reachable_session_ok X w H)).
  reflexivity.
Qed.

Lemma nothing_saved_without_consent_witness :
  file (snd (script_run Scenario.scoring_down false (Some "bye")
                        (Scenario.question_awaited Scenario.scoring_down)))
  = file (Scenario.question_awaited Scenario.scoring_down).
Proof.
  apply (nothing_saved_without_consent Scenario.scoring_down).
  reach_example 8.
Defined.

(** ** Answers *)

Lemma handle_tech_q_effect
      (X : host) (w : world) (msg : string) (current : string * string) :
  nth_error (flat_questions (st w)) (q_ptr (st w)) = Some current ->
  exists score feedback w',
    handle_tech_q X msg w = (Ret tt, w')
    /\ answers (st w')
       = (answers (st w)
            ++ [mk_answer (fst current) (snd current) (strip msg)
                          score feedback])%list
    /\ q_ptr (st w') = S (q_ptr (st w))
    /\ flat_questions (st w') = flat_questions (st w)
    /\ step (st w')
       = match nth_error (flat_questions (st w)) (S (q_ptr (st w))) with
         | Some _ => step (st w)
         | None => Done
         end.
Proof.
  intro Hcur. unfold handle_tech_q. steps. rewrite Hcur.
  unfold bind at 1, try_except.
  pose proof (llm_score_answer_no_halt X (snd current) (strip msg) w) as Hnh.
  pose proof (blind_st (llm_score_answer X (snd current) (strip msg)) w
                       (blind_llm_score_answer X _ _)) as Hst.
  destruct (llm_score_answer X (snd current) (strip msg) w) as [[sp|e|] w1];
    [| |now contradiction Hnh].
  all: cbn [fst snd ret] in *; steps; rewrite ?Hst;
    destruct (nth_error (flat_questions (st w)) (S (q_ptr (st w))));
    [ unfold say, update; fields; eexists _, _, _;
      split; [reflexivity|]; fields; rewrite ?Hst; auto
    | match goal with
      | |- context [bind (update (set_step Summary)) ?k ?w0] =>
          destruct (summarizing_effect X w0) as [final [w' [Hrun [Hs' _]]]];
          replace (bind (update (set_step Summary)) k w0) with (Ret tt, w')
            by (symmetry; exact Hrun)
      end;
      eexists _, _, w'; split; [reflexivity|];
      rewrite Hs'; fields; rewrite ?Hst; auto ].
Qed.

Lemma answer_in_question_phase
        (X : host) (w : world) (cb : bool) (msg : string) :
  reachable X w ->
  step (st w) = TechQ ->
  is_empty msg = false ->
  is_end_message msg = false ->
  exists current score feedback w',
    nth_error (flat_questions (st w)) (q_ptr (st w)) = Some current
    /\ script_run X cb (Some msg) w = (Ret tt, w')
    /\ answers (st w')
       = (answers (st w)
            ++ [mk_answer (fst current) (snd current) (strip msg)
                          score feedback])%list
    /\ q_ptr (st w') = S (q_ptr (st w))
    /\ flat_questions (st w') = flat_questions (st w)
    /\ step (st w')
       = if (S (q_ptr (st w)) <? List.length (flat_questions (st w)))%nat
         then TechQ else Done.
Proof.
  intros Hw Hstep Hne Hend.
  destruct (reachable_session_ok X w Hw) as (_ & _ & _ & _ & Hs & _).
  rewrite Hstep in Hs.
  destruct (nth_error (flat_questions (st w)) (q_ptr (st w)))
    as [current|] eqn:Hcur; [|apply nth_error_None in Hcur; lia].
  rewrite script_run_after_greeting by (rewrite Hstep; discriminate).
  unfold handle_user_input. rewrite Hne, Hend. steps.
  unfold dispatch. steps. rewrite Hstep.
  match goal with
  | |- context [handle_tech_q X msg ?w0] =>
      destruct (handle_tech_q_effect X w0 msg current)
        as [score [feedback [w' (Hrun & Ha & Hq & Hf & Hst)]]];
        [fields; exact Hcur|]
  end.
  revert Ha Hq Hf Hst. fields. intros Ha Hq Hf Hst.
  exists current, score, feedback, w'. repeat split; try assumption.
  rewrite Hst, Hstep.
  destruct (Nat.ltb_spec (S (q_ptr (st w))) (List.length (flat_questions (st w))))
    as [Hlt | Hge].
  - apply nth_error_Some in Hlt.
    now destruct (nth_error (flat_questions (st w)) (S (q_ptr (st w)))).
  - apply nth_error_None in Hge. now rewrite Hge.
Qed.

(** X22.  In the question phase of a reachable session, every message
    that is not empty and not an end keyword is recorded, trimmed, as the
    answer to the question at the cursor, whether scoring succeeds or not;
    the run returns normally, the cursor moves on by one, the questions
    are unchanged, and the session stays in the question phase or is done
    when that was the last question. *)
Theorem every_answer_is_recorded
        (X : host) (w : world) (cb : bool) (msg : string) :
  reachable X w ->
  step (st w) = TechQ ->
  is_empty msg = false ->
  is_end_message msg = false ->
  exists current score feedback w',
    nth_error (flat_questions (st w)) (q_ptr (st w)) = Some current
    /\ script_run X cb (Some msg) w = (Ret tt, w')
    /\ answers (st w')
       = (answers (st w)
            ++ [mk_answer (fst current) (snd current) (strip msg)
                          score feedback])%list
    /\ q_ptr (st w') = S (q_ptr (st w))
    /\ flat_questions (st w') = flat_questions (st w)
    /\ step (st w')
       = if (S (q_ptr (st w)) <? List.length (flat_questions (st w)))%nat
         then TechQ else Done.
Proof. apply answer_in_question_phase. Qed.

Lemma every_answer_is_recorded_witness :
  exists current score feedback w',
    nth_error (flat_questions
                 (st (Scenario.question_awaited Scenario.scoring_down)))
              (q_ptr (st (Scenario.question_awaited Scenario.scoring_down)))
    = Some current
    /\ script_run Scenario.scoring_down true (Some "It is a sequence.")
                  (Scenario.question_awaited Scenario.scoring_down)
       = (Ret tt, w')
    /\ answers (st w')
       = (answers (st (Scenario.question_awaited Scenario.scoring_down))
            ++ [mk_answer (fst current) (snd current)
                          (strip "It is a sequence.") score feedback])%list
    /\ q_ptr (st w')
       = S (q_ptr (st (Scenario.question_awaited Scenario.scoring_down)))
    /\ flat_questions (st w')
       = flat_questions (st (Scenario.question_awaited Scenario.scoring_down))
    /\ step (st w')
       = if (S (q_ptr (st (Scenario.question_awaited Scenario.scoring_down)))
             <? List.length
                  (flat_questions
                     (st (Scenario.question_awaited Scenario.scoring_down))))%nat
         then TechQ else Done.
Proof.
  apply (every_answer_is_recorded Scenario.scoring_down);
    [reach_example 8 | reflexivity | reflexivity | reflexivity].
Defined.


(** X23.  From the question phase of a reachable session, as many
    messages as there are questions left, none of them empty or an end
    keyword, bring the session to done with one answer per question and a
    summary, whatever the generation service does. *)
Theorem interview_completes (X : host) (cb : bool) (msgs : list string) :
  forall w,
    reachable X w ->
    step (st w) = TechQ ->
    Forall (fun m => is_empty m = false /\ is_end_message m = false) msgs ->
    List.length msgs = List.length (flat_questions (st w)) - q_ptr (st w) ->
    let w' := run_all X cb msgs w in
    step (st w') = Done
    /\ flat_questions (st w') = flat_questions (st w)
    /\ List.length (answers (st w')) = List.length (flat_questions (st w))
    /\ final_summary (st w') <> None.
Proof.
  induction msgs as [|m r IH]; intros w Hw Hstep Hall Hlen.
  - destruct (reachable_session_ok X w Hw) as (_ & _ & _ & _ & Hs & _).
    rewrite Hstep in Hs. simpl in Hlen. lia.
  - inversion Hall as [|x l [Hne Hend] Hr]; subst.
    destruct (answer_in_question_phase X w cb m Hw Hstep Hne Hend)
      as (current & score & feedback & w1 & Hcur & Hrun & _ & Hq & Hf & Hst).
    assert (Hw1 : reachable X w1).
    { replace w1 with (snd (script_run X cb (Some m) w))
        by now rewrite Hrun.
      now constructor. }
    cbn [run_all]. rewrite Hrun. cbn [snd]. simpl in Hlen.
    destruct (Nat.ltb_spec (S (q_ptr (st w)))
                           (List.length (flat_questions (st w))))
      as [Hlt | Hge].
    + destruct (IH w1 Hw1 Hst Hr) as (H1 & H2 & H3 & H4).
      { rewrite Hf, Hq. lia. }
      rewrite H2, H3, Hf. auto.
    + destruct r as [|m2 r]; [|simpl in Hlen; lia].
      cbn [run_all].
      destruct (reachable_session_ok X w1 Hw1) as (_ & _ & _ & Ha & Hs & _).
      rewrite Hst in Hs. destruct Hs as [Hp Hfin].
      repeat split; try assumption.
      unfold answered_questions in Ha.
      rewrite <- (length_map (fun a => (a_tech a, a_question a))), Ha.
      rewrite length_firstn, <- Hf. lia.
Qed.

Lemma interview_completes_witness :
  let w := Scenario.question_awaited Scenario.scoring_down in
  let w' := run_all Scenario.scoring_down true
                    ["It is a sequence."; "Scope."; "With pdb."; "A parser."]
                    w in
  step (st w') = Done
  /\ flat_questions (st w') = flat_questions (st w)
  /\ List.length (answers (st w')) = List.length (flat_questions (st w))
  /\ final_summary (st w') <> None.
Proof.
  apply (interview_completes Scenario.scoring_down true);
    [reach_example 8 | reflexivity | repeat constructor | reflexivity].
Defined.

(** ** A failing service at the last rating *)

(** X24.  When every request to the service fails and the last tech
    is given a valid rating, the handler ends with [RuntimeError] after 3
    requests: the rating is recorded, the rating cursor is past the last
    tech, the session stays in the rating phase with its questions
    unchanged, and every later message that is not empty and not an end
    keyword only adds its user turn, without any reply. *)
Theorem generation_failure_escapes_rating
        (X : host) (w : world) (msg t : string) (i : nat) (val : Z) :
  (forall n p, backend X n p = None) ->
  is_empty msg = false ->
  is_end_message msg = false ->
  step (st w) = Ratings ->
  rating_idx (st w) = Some i ->
  nth_error (techs (st w)) i = Some t ->
  nth_error (techs (st w)) (S i) = None ->
  parse_1_to_10 msg = Some val ->
  exists w',
    handle_user_input X msg w = (Raise RuntimeError, w')
    /\ step (st w') = Ratings
    /\ rating_idx (st w') = Some (S i)
    /\ dict_find (ratings (st w')) t = Some val
    /\ flat_questions (st w') = flat_questions (st w)
    /\ last (history (st w')) (User "") = Assistant Generating
    /\ calls w' = calls w + 3
    /\ forall m,
         is_empty m = false -> is_end_message m = false ->
         handle_user_input X m w'
         = (Ret tt,
            set_st (set_history (history (st w') ++ [User m])%list (st w')) w').
Proof.
  intros Hfail Hne Hend Hstep Hidx Ht Hlast Hval.
  unfold handle_user_input. rewrite Hne, Hend. steps.
  unfold dispatch. steps. rewrite Hstep.
  unfold handle_ratings. steps. rewrite Hidx, Ht, Hval. steps.
  rewrite Hlast. steps.
  unfold bind at 1.
  assert (Hgen : llm_generate_questions X (techs (st w)) w
                 = (Raise RuntimeError,
                    mk_world (st w) (file w) (calls w + 3)
                             (slept w ++ backoff_delays 0 3)%list)).
  { unfold llm_generate_questions, bind, safe_generate.
    now rewrite (safe_generate_from_exhausted X _ 3 0 w)
      by (intros j _; apply Hfail). }
  rewrite (blind_at _ _ w (blind_llm_generate_questions X _)), Hgen.
  cbn [fst snd]. eexists. split; [reflexivity|]. fields.
  repeat split; try assumption.
  - rewrite dict_find_set. now rewrite String.eqb_refl.
  - now rewrite last_last.
  - intros m Hm He. unfold handle_user_input. rewrite Hm, He. steps.
    unfold dispatch. steps. rewrite Hstep.
    unfold handle_ratings. steps. now rewrite Hlast.
Qed.

Lemma generation_failure_escapes_rating_witness :
  exists w',
    handle_user_input Scenario.failing "7"
                      (Scenario.rating_awaited Scenario.failing)
    = (Raise RuntimeError, w')
    /\ calls w' = calls (Scenario.rating_awaited Scenario.failing) + 3.
Proof.
  destruct (generation_failure_escapes_rating
              Scenario.failing (Scenario.rating_awaited Scenario.failing)
              "7" "Python" 0 7%Z)
    as [w' (Hrun & _ & _ & _ & _ & _ & Hc & _)]; try reflexivity.
  exists w'. split; [exact Hrun | exact Hc].
Defined.

(** ** The snapshot of a finished interview *)

Lemma last_answer_effect
      (X : host) (w : world) (msg : string) (current : string * string) :
  nth_error (flat_questions (st w)) (q_ptr (st w)) = Some current ->
  nth_error (flat_questions (st w)) (S (q_ptr (st w))) = None ->
  exists w',
    handle_tech_q X msg w = (Ret tt, w')
    /\ step (st w') = Done
    /\ consent (st w') = consent (st w)
    /\ file w'
       = if consent (st w)
         then (file w ++ [mk_snapshot (candidate (st w')) (ratings (st w'))
                                      (answers (st w')) (final_summary (st w'))])%list
         else file w.
Proof.
  intros Hcur Hnext. unfold handle_tech_q. steps. rewrite Hcur.
  unfold bind at 1, try_except.
  pose proof (llm_score_answer_no_halt X (snd current) (strip msg) w) as Hnh.
  pose proof (blind_st (llm_score_answer X (snd current) (strip msg)) w
                       (blind_llm_score_answer X _ _)) as Hst.
  pose proof (llm_score_answer_file X (snd current) (strip msg) w) as Hfile.
  destruct (llm_score_answer X (snd current) (strip msg) w) as [[sp|e|] w1];
    [| |now contradiction Hnh].
  all: cbn [fst snd ret] in *; steps; rewrite ?Hst, Hnext;
    match goal with
    | |- context [bind (update (set_step Summary)) ?k ?w0] =>
        destruct (summarizing_effect X w0) as [final [w' [Hrun [Hs' Hf']]]];
        replace (bind (update (set_step Summary)) k w0) with (Ret tt, w')
          by (symmetry; exact Hrun)
    end;
    exists w'; split; [reflexivity|];
    rewrite Hs', Hf'; fields; rewrite ?Hst, Hfile; auto.
Qed.

(** X25.  The answer to the last question ends the interview: the run
    returns normally, the session is done, and the saved file gets exactly
    one more snapshot when the consent box is ticked, holding the session's
    final candidate record, ratings, answers and summary, and none
    otherwise. *)
Theorem final_snapshot_matches_session
        (X : host) (w : world) (cb : bool) (msg : string) :
  step (st w) = TechQ ->
  S (q_ptr (st w)) = List.length (flat_questions (st w)) ->
  is_empty msg = false ->
  is_end_message msg = false ->
  exists w',
    script_run X cb (Some msg) w = (Ret tt, w')
    /\ step (st w') = Done
    /\ file w'
       = if cb
         then (file w ++ [mk_snapshot (candidate (st w')) (ratings (st w'))
                                      (answers (st w')) (final_summary (st w'))])%list
         else file w.
Proof.
  intros Hstep Hlast Hne Hend.
  destruct (nth_error (flat_questions (st w)) (q_ptr (st w)))
    as [current|] eqn:Hcur; [|apply nth_error_None in Hcur; lia].
  assert (Hnext : nth_error (flat_questions (st w)) (S (q_ptr (st w))) = None)
    by (apply nth_error_None; lia).
  rewrite script_run_after_greeting by (rewrite Hstep; discriminate).
  unfold handle_user_input. rewrite Hne, Hend. steps.
  unfold dispatch. steps. rewrite Hstep.
  match goal with
  | |- context [handle_tech_q X msg ?w0] =>
      destruct (last_answer_effect X w0 msg current)
        as [w' (Hrun & Hd & Hc & Hf)];
        [fields; exact Hcur | fields; exact Hnext |]
  end.
  revert Hc Hf. fields. intros Hc Hf.
  exists w'. repeat split; assumption.
Qed.

Lemma final_snapshot_matches_session_witness :
  exists w',
    script_run Scenario.string_valued true (Some "done")
               (mk_world
                  (set_flat_questions [("Go", "Why Go?")]
                     (set_step TechQ initial_session)) [] 0 [])
    = (Ret tt, w')
    /\ step (st w') = Done
    /\ file w'
       = ([] ++ [mk_snapshot (candidate (st w')) (ratings (st w'))
                             (answers (st w')) (final_summary (st w'))])%list.
Proof.
  apply (final_snapshot_matches_session
           Scenario.string_valued
           (mk_world (set_flat_questions [("Go", "Why Go?")]
                        (set_step TechQ initial_session)) [] 0 [])
           true "done"); reflexivity.
Defined.

(** ** The transcript *)

Lemma grows_ret {A : Type} (a : A) : grows (ret a).
Proof. intro w. exists []. simpl. now rewrite app_nil_r. Qed.

Lemma grows_raise {A : Type} (e : exn) : grows (@raise A e).
Proof. intro w. exists []. simpl. now rewrite app_nil_r. Qed.

Lemma grows_stop {A : Type} : grows (@st_stop A).
Proof. intro w. exists []. simpl. now rewrite app_nil_r. Qed.

Lemma grows_get : grows get_session.
Proof. intro w. exists []. simpl. now rewrite app_nil_r. Qed.

Lemma grows_say (m : said) : grows (say m).
Proof. intro w. now exists [Assistant m]. Qed.

Lemma grows_save (snap : snapshot) : grows (save_simulated snap).
Proof. intro w. exists []. simpl. now rewrite app_nil_r. Qed.

Lemma grows_update (f : session -> session) :
  (forall s, history (f s) = history s) -> grows (update f).
Proof. intros H w. exists []. simpl. now rewrite H, app_nil_r. Qed.

Lemma grows_user_turn (u : string) :
  grows (update (fun s => set_history (history s ++ [User u])%list s)).
Proof. intro w. now exists [User u]. Qed.

Lemma grows_blind {A : Type} (m : M A) : session_blind m -> grows m.
Proof.
  intros H w. exists []. now rewrite (blind_st m w H), app_nil_r.
Qed.

Lemma grows_bind {A B : Type} (m : M A) (k : A -> M B) :
  grows m -> (forall a, grows (k a)) -> grows (bind m k).
Proof.
  intros Hm Hk w. unfold bind. destruct (Hm w) as [l1 H1].
  destruct (m w) as [[a|e|] w1]; cbn [snd] in *; try (now exists l1).
  destruct (Hk a w1) as [l2 H2]. exists (l1 ++ l2)%list.
  now rewrite H2, H1, app_assoc.
Qed.

Lemma grows_try {A : Type} (m h : M A) :
  grows m -> grows h -> grows (try_except m h).
Proof.
  intros Hm Hh w. unfold try_except. destruct (Hm w) as [l1 H1].
  destruct (m w) as [[a|e|] w1]; cbn [snd] in *; try (now exists l1).
  destruct (Hh w1) as [l2 H2]. exists (l1 ++ l2)%list.
  now rewrite H2, H1, app_assoc.
Qed.

(** Walks through a piece of the script built from the steps above. *)
Ltac grow X :=
  repeat first
    [ apply grows_ret | apply grows_raise | apply grows_stop
    | apply grows_get | apply grows_say | apply grows_save
    | apply grows_user_turn
    | apply grows_update; intro; reflexivity
    | apply grows_blind;
      first [ apply (blind_llm_generate_questions X)
            | apply (blind_llm_score_answer X)
            | apply (blind_llm_final_summary X) ]
    | apply grows_try
    | apply grows_bind; [|intro]
    | match goal with
      | |- grows (match ?x with _ => _ end) => destruct x
      end
    | progress cbv zeta ].

Lemma grows_validate_and_store (f t : string) : grows (validate_and_store f t).
Proof. unfold validate_and_store, store. grow tt. Qed.

Lemma grows_ask_next_field : grows ask_next_field.
Proof. unfold ask_next_field. grow tt. Qed.

Lemma grows_handle_fields (msg : string) : grows (handle_fields msg).
Proof.
  unfold handle_fields.
  repeat first [ apply grows_validate_and_store | apply grows_ask_next_field
               | progress grow tt ].
Qed.

Lemma grows_handle_ratings (X : host) (msg : string) :
  grows (handle_ratings X msg).
Proof. unfold handle_ratings. grow X. Qed.

Lemma grows_handle_tech_q (X : host) (msg : string) :
  grows (handle_tech_q X msg).
Proof. unfold handle_tech_q. grow X. Qed.

Lemma grows_handle_user_input (X : host) (msg : string) :
  grows (handle_user_input X msg).
Proof.
  unfold handle_user_input, dispatch.
  repeat first [ apply grows_handle_fields | apply grows_handle_ratings
               | apply grows_handle_tech_q | apply grows_validate_and_store
               | progress grow X ].
Qed.

Lemma grows_script_run (X : host) (cb : bool) (input : option string) :
  grows (script_run X cb input).
Proof.
  unfold script_run, greet_block, ensure_greeting_once.
  repeat first [ apply grows_handle_user_input | apply grows_ask_next_field
               | apply grows_validate_and_store | progress grow X ].
Qed.

(** X26.  A run of the script only appends to the history: what was
    said before stays, in place, whatever the input and the outcome. *)
Theorem transcript_only_grows
        (X : host) (cb : bool) (input : option string) (w : world) :
  exists said_now,
    history (st (snd (script_run X cb input w)))
    = (history (st w) ++ said_now)%list.
Proof. apply grows_script_run. Qed.

Lemma dict_find_In {V : Type} (d : dict V) (k : string) (v : V) :
  dict_find d k = Some v -> In (k, v) d.
Proof.
  induction d as [|[k0 v0] d IH]; simpl; [discriminate|].
  destruct (String.eqb_spec k0 k) as [->|_].
  - intro H. injection H as ->. now left.
  - intro H. right. now apply IH.
Qed.

(** X27.  In the question phase and once done, in a reachable
    session, every tech of [techs] has a recorded rating between 1 and
    10. *)
Theorem every_tech_is_rated_before_questions (X : host) (w : world) :
  reachable X w ->
  step (st w) = TechQ \/ step (st w) = Done ->
  forall t, In t (techs (st w)) ->
            exists n, dict_find (ratings (st w)) t = Some n
                      /\ (1 <= n <= 10)%Z.
Proof.
  intros Hw Hstep t Hin.
  destruct (reachable_session_ok X w Hw) as (_ & _ & Hr & _ & _ & Hc).
  unfold ratings_cover in Hc.
  assert (Hcov : dict_find (ratings (st w)) t <> None)
    by (destruct Hstep as [E | E]; rewrite E in Hc; now apply Hc).
  destruct (dict_find (ratings (st w)) t) as [n|] eqn:Hn; [|contradiction].
  exists n. split; [reflexivity|].
  apply dict_find_In in Hn.
  exact (proj1 (Forall_forall _ _) Hr (t, n) Hn).
Qed.

Lemma every_tech_is_rated_before_questions_witness :
  exists n,
    dict_find (ratings (st (Scenario.question_awaited Scenario.scoring_down)))
              "Python" = Some n
    /\ (1 <= n <= 10)%Z.
Proof.
  apply (every_tech_is_rated_before_questions
           Scenario.scoring_down
           (Scenario.question_awaited Scenario.scoring_down)).
  - reach_example 8.
  - left. vm_compute. reflexivity.
  - vm_compute. left. reflexivity.
Defined.

